(** * NFT portfolio app: normalizer, Farcaster detector, store and grid

    A shallow embedding of
    - [src/services/nft/normalizer.ts] (module [NFTNormalizer]),
    - [src/services/nft/detector.ts]   (module [FarcasterDetector]),
    - the Zustand store                (module [Store]),
    - [groupAndSortNFTs] of the grid   (module [Grid]),
    with the record types of [src/types/index.ts].

    Conventions of the embedding.
    - A JavaScript string is a [string]: a sequence of code units, here the
      code units below 256 (the Latin-1 range), on which [toLowerCase], the
      [/i] flag and [\s] behave as implemented below.
    - [undefined] for an optional field is [None].
    - [number] fields that hold timestamps and counts are [Z]; prices and
      percentages are [Q]. A numeric attribute value is an integer, printed
      in decimal by [String(...)].
    - [Date.now()], the random id suffix and date parsing are inputs of the
      functions that use them. *)

From Stdlib Require Import ZArith QArith Ascii String List Sorted DecimalString.
From stdpp Require Import base option list gmap strings.

Local Open Scope string_scope.
Local Open Scope Z_scope.
Local Open Scope list_scope.

(* ===================================================================== *)
(** ** JavaScript string primitives *)
(* ===================================================================== *)

Module JS.

(** One code unit of [String.prototype.toLowerCase]: A-Z and the Latin-1
    capitals U+00C0..U+00DE (without the multiplication sign U+00D7). *)
Definition lower_char (c : ascii) : ascii :=
  let n := N_of_ascii c in
  if ((65 <=? n) && (n <=? 90))%N
     || ((192 <=? n) && (n <=? 222) && negb (n =? 215))%N
  then ascii_of_N (n + 32) else c.

Fixpoint toLowerCase (s : string) : string :=
  match s with
  | EmptyString => EmptyString
  | String c s' => String (lower_char c) (toLowerCase s')
  end.

(** [s.startsWith(p)] *)
Definition startsWith (p s : string) : bool := String.prefix p s.

Fixpoint drop (n : nat) (s : string) : string :=
  match n, s with
  | O, _ => s
  | S n', String _ s' => drop n' s'
  | S _, EmptyString => EmptyString
  end.

(** [s.includes(p)]: [p] occurs somewhere in [s]. *)
Fixpoint includes (p s : string) : bool :=
  String.prefix p s ||
  match s with
  | EmptyString => false
  | String _ s' => includes p s'
  end.

(** [s.replace(p, r)] with a string pattern: only the first occurrence of
    [p] is replaced. *)
Fixpoint replace (p r s : string) : string :=
  if String.prefix p s then r +:+ drop (String.length p) s
  else match s with
       | EmptyString => EmptyString
       | String c s' => String c (replace p r s')
       end.

(** [s.split(sep)] for a one-character separator. *)
Fixpoint split (sep : ascii) (s : string) : list string :=
  match s with
  | EmptyString => [EmptyString]
  | String c s' =>
      if Ascii.eqb c sep then EmptyString :: split sep s'
      else match split sep s' with
           | [] => [String c EmptyString]
           | p :: ps => String c p :: ps
           end
  end.

(** Truthiness of an optional string: [undefined] and [''] are falsy. *)
Definition truthy (o : option string) : bool :=
  match o with
  | Some s => negb (String.eqb s "")
  | None => false
  end.

(** [a || b] on optional strings. *)
Definition or (a b : option string) : option string :=
  if truthy a then a else b.

(** [s] holds the code unit [c]. *)
Fixpoint has_char (c : ascii) (s : string) : bool :=
  match s with
  | EmptyString => false
  | String d s' => Ascii.eqb d c || has_char c s'
  end.

End JS.

(* ===================================================================== *)
(** ** Types ([src/types/index.ts]) *)
(* ===================================================================== *)

Inductive ChainType := evm | solana.

Inductive EVMChain := ethereum | polygon | arbitrum | optimism | base | zora.

Definition ChainType_str (c : ChainType) : string :=
  match c with evm => "evm" | solana => "solana" end.

Definition EVMChain_str (c : EVMChain) : string :=
  match c with
  | ethereum => "ethereum" | polygon => "polygon" | arbitrum => "arbitrum"
  | optimism => "optimism" | base => "base" | zora => "zora"
  end.

Inductive SortMode := recent | collection | farcaster | custom | value.
Inductive ViewMode := grid | list_view.

Module Wallet.
Record t := mk {
  id : string;
  address : string;
  chain : ChainType;
  evmChain : option EVMChain;
  label : option string;
  color : option string;
  addedAt : Z;
  isActive : option bool
}.
End Wallet.

(** [value: string | number] of an attribute. *)
Inductive AttrValue := VString (s : string) | VNumber (n : Z).

(** [String(value)] *)
Definition String_of (v : AttrValue) : string :=
  match v with
  | VString s => s
  | VNumber n => NilEmpty.string_of_int (Z.to_int n)
  end.

Module NFTAttribute.
Record t := mk {
  trait_type : string;
  value : AttrValue;
  display_type : option string
}.
End NFTAttribute.

Module FloorPrice.
Record t := mk { amount : Q; currency : string }.
End FloorPrice.

Module NFTCollection.
Record t := mk {
  name : string;
  address : string;
  description : option string;
  imageUrl : option string;
  externalUrl : option string;
  floorPrice : option FloorPrice.t
}.
End NFTCollection.

Module NFTMetadata.
Record t := mk {
  attributes : option (list NFTAttribute.t);
  isFarcasterMint : bool;
  farcasterChannel : option string;
  mintedAt : option Z;
  creator : option string;
  royalties : option Q
}.
End NFTMetadata.

Module NFT.
Record t := mk {
  id : string;
  walletId : string;
  chain : ChainType;
  evmChain : option EVMChain;
  contractAddress : string;
  tokenId : string;
  name : string;
  description : option string;
  image : string;
  imageOptimized : option string;
  animationUrl : option string;
  externalUrl : option string;
  collection : NFTCollection.t;
  metadata : NFTMetadata.t;
  lastFetched : Z
}.
End NFT.

Module Collection.
Record t := mk {
  id : string;
  name : string;
  contractAddress : string;
  chain : ChainType;
  evmChain : option EVMChain;
  nftCount : Z;
  floorPrice : option FloorPrice.t;
  imageUrl : option string;
  description : option string;
  externalUrl : option string
}.
End Collection.

Module CustomGroup.
Record t := mk {
  id : string;
  name : string;
  description : option string;
  nftIds : list string;
  color : string;
  icon : option string;
  createdAt : Z;
  updatedAt : Z
}.
End CustomGroup.

Module FilterOptions.
Record t := mk {
  collections : option (list string);
  farcaster : option bool;
  customGroups : option (list string);
  chains : option (list ChainType);
  wallets : option (list string)
}.
End FilterOptions.

Inductive Theme := light | dark | auto.
Inductive ImageQuality := low | medium | high.

Module AppSettings.
Record t := mk {
  refreshInterval : Z;
  showFloorPrice : bool;
  theme : Theme;
  defaultView : ViewMode;
  defaultSort : SortMode;
  imageQuality : ImageQuality;
  enableNotifications : bool
}.
End AppSettings.

(** *** Provider records *)

Module AlchemyNFT.
Record contract_t := mk_contract {
  address : string;
  contract_name : option string;
  contract_symbol : option string;
  contract_totalSupply : option string;
  contract_tokenType : string
}.
Record media_t := mk_media {
  raw : string;
  gateway : string;
  thumbnail : option string;
  format : option string
}.
Record metadata_t := mk_metadata {
  name : option string;
  metadata_description : option string;
  image : option string;
  external_url : option string;
  attributes : option (list NFTAttribute.t)
}.
Record openSea_t := mk_openSea {
  floorPrice : option Q;
  collectionName : option string;
  imageUrl : option string
}.
Record contractMetadata_t := mk_contractMetadata {
  cm_name : option string;
  cm_symbol : option string;
  cm_totalSupply : option string;
  cm_tokenType : string;
  openSea : option openSea_t
}.
Record t := mk {
  contract : contract_t;
  tokenId : string;
  tokenType : string;
  title : string;
  description : option string;
  tokenUri : option string;
  media : list media_t;
  metadata : metadata_t;
  timeLastUpdated : string;
  contractMetadata : option contractMetadata_t
}.
End AlchemyNFT.

Module HeliusAsset.
Record metadata_t := mk_metadata {
  name : string;
  symbol : string;
  description : option string;
  attributes : option (list NFTAttribute.t)
}.
Record links_t := mk_links {
  image : option string;
  external_url : option string
}.
Record content_t := mk_content {
  json_uri : string;
  metadata : metadata_t;
  links : option links_t
}.
Record grouping_t := mk_grouping { group_key : string; group_value : string }.
Record royalty_t := mk_royalty {
  royalty_model : string;
  target : option string;
  percent : Q
}.
Record creator_t := mk_creator {
  address : string;
  share : Z;
  verified : bool
}.
(** The fields the normalizer reads; [authorities], [compression],
    [ownership] and [mint_extensions] are never consulted. *)
Record t := mk {
  id : string;
  content : content_t;
  grouping : list grouping_t;
  royalty : royalty_t;
  creators : list creator_t
}.
End HeliusAsset.

(* ===================================================================== *)
(** ** Normalizer ([src/services/nft/normalizer.ts]) *)
(* ===================================================================== *)

Module NFTNormalizer.

(** [normalizeImageUrl(url)] *)
Definition normalizeImageUrl (url : string) : string :=
  if String.eqb url "" then ""
  else if JS.startsWith "ipfs://" url then
    let hash := JS.replace "ipfs://" "" url in
    "https://ipfs.io/ipfs/" +:+ hash
  else if JS.startsWith "ar://" url then
    let hash := JS.replace "ar://" "" url in
    "https://arweave.net/" +:+ hash
  else url.

(** [fromAlchemy(alchemyNFT, walletId, chain)]; [now] is [Date.now()] and
    [dateGetTime s] is [new Date(s).getTime()]. *)
Definition fromAlchemy (now : Z) (dateGetTime : string -> Z)
    (alchemyNFT : AlchemyNFT.t) (walletId : string) (chain : EVMChain) : NFT.t :=
  let contractAddress :=
    JS.toLowerCase (AlchemyNFT.address (AlchemyNFT.contract alchemyNFT)) in
  let tokenId := AlchemyNFT.tokenId alchemyNFT in
  let id := "evm:" +:+ EVMChain_str chain +:+ ":" +:+ contractAddress
            +:+ ":" +:+ tokenId in
  let media0 := head (AlchemyNFT.media alchemyNFT) in
  let md := AlchemyNFT.metadata alchemyNFT in
  let cm := AlchemyNFT.contractMetadata alchemyNFT in
  let image :=
    default ""
      (JS.or (AlchemyNFT.gateway <$> media0)
         (JS.or (AlchemyNFT.raw <$> media0)
            (JS.or (AlchemyNFT.image md) (Some "")))) in
  let thumbnail := media0 ≫= AlchemyNFT.thumbnail in
  let openSea := cm ≫= AlchemyNFT.openSea in
  {| NFT.id := id;
     NFT.walletId := walletId;
     NFT.chain := evm;
     NFT.evmChain := Some chain;
     NFT.contractAddress := contractAddress;
     NFT.tokenId := tokenId;
     NFT.name :=
       default ("#" +:+ tokenId)
         (JS.or (Some (AlchemyNFT.title alchemyNFT))
            (JS.or (AlchemyNFT.name md) (Some ("#" +:+ tokenId))));
     NFT.description :=
       JS.or (AlchemyNFT.description alchemyNFT)
             (AlchemyNFT.metadata_description md);
     NFT.image := normalizeImageUrl image;
     NFT.imageOptimized :=
       if JS.truthy thumbnail then normalizeImageUrl <$> thumbnail else None;
     NFT.animationUrl := None;
     NFT.externalUrl := AlchemyNFT.external_url md;
     NFT.collection :=
       {| NFTCollection.name :=
            default "Unknown Collection"
              (JS.or (cm ≫= AlchemyNFT.cm_name)
                 (JS.or (AlchemyNFT.contract_name (AlchemyNFT.contract alchemyNFT))
                    (Some "Unknown Collection")));
          NFTCollection.address := contractAddress;
          NFTCollection.description := None;
          NFTCollection.imageUrl := openSea ≫= AlchemyNFT.imageUrl;
          NFTCollection.externalUrl := None;
          NFTCollection.floorPrice :=
            match openSea ≫= AlchemyNFT.floorPrice with
            | Some p =>
                if Qeq_bool p 0 then None
                else Some {| FloorPrice.amount := p; FloorPrice.currency := "ETH" |}
            | None => None
            end |};
     NFT.metadata :=
       {| NFTMetadata.attributes :=
            Some (default [] (AlchemyNFT.attributes md));
          NFTMetadata.isFarcasterMint := false;
          NFTMetadata.farcasterChannel := None;
          NFTMetadata.mintedAt :=
            if String.eqb (AlchemyNFT.timeLastUpdated alchemyNFT) "" then None
            else Some (dateGetTime (AlchemyNFT.timeLastUpdated alchemyNFT));
          NFTMetadata.creator := None;
          NFTMetadata.royalties := None |};
     NFT.lastFetched := now |}.

(** [fromHelius(heliusAsset, walletId)] *)
Definition fromHelius (now : Z) (heliusAsset : HeliusAsset.t)
    (walletId : string) : NFT.t :=
  let id := "solana:" +:+ HeliusAsset.id heliusAsset in
  let collectionGroup :=
    find (fun g => String.eqb (HeliusAsset.group_key g) "collection")
         (HeliusAsset.grouping heliusAsset) in
  let collectionAddress :=
    default (HeliusAsset.id heliusAsset)
      (JS.or (HeliusAsset.group_value <$> collectionGroup)
             (Some (HeliusAsset.id heliusAsset))) in
  let links := HeliusAsset.links (HeliusAsset.content heliusAsset) in
  let image := default "" (JS.or (links ≫= HeliusAsset.image) (Some "")) in
  let metadata := HeliusAsset.metadata (HeliusAsset.content heliusAsset) in
  {| NFT.id := id;
     NFT.walletId := walletId;
     NFT.chain := solana;
     NFT.evmChain := None;
     NFT.contractAddress := collectionAddress;
     NFT.tokenId := HeliusAsset.id heliusAsset;
     NFT.name :=
       default "Unknown"
         (JS.or (Some (HeliusAsset.name metadata)) (Some "Unknown"));
     NFT.description := HeliusAsset.description metadata;
     NFT.image := normalizeImageUrl image;
     NFT.imageOptimized := None;
     NFT.animationUrl := None;
     NFT.externalUrl := links ≫= HeliusAsset.external_url;
     NFT.collection :=
       {| NFTCollection.name :=
            default "Unknown Collection"
              (JS.or (Some (HeliusAsset.symbol metadata))
                     (Some "Unknown Collection"));
          NFTCollection.address := collectionAddress;
          NFTCollection.description := None;
          NFTCollection.imageUrl := None;
          NFTCollection.externalUrl := None;
          NFTCollection.floorPrice := None |};
     NFT.metadata :=
       {| NFTMetadata.attributes :=
            Some (default [] (HeliusAsset.attributes metadata));
          NFTMetadata.isFarcasterMint := false;
          NFTMetadata.farcasterChannel := None;
          NFTMetadata.mintedAt := None;
          NFTMetadata.creator :=
            HeliusAsset.address <$> head (HeliusAsset.creators heliusAsset);
          NFTMetadata.royalties :=
            Some (HeliusAsset.percent (HeliusAsset.royalty heliusAsset)) |};
     NFT.lastFetched := now |}.

(** [generateId(chain, contractAddress, tokenId, evmChain?)] *)
Definition generateId (chain : ChainType) (contractAddress tokenId : string)
    (evmChain : option EVMChain) : string :=
  match chain, evmChain with
  | evm, Some e =>
      "evm:" +:+ EVMChain_str e +:+ ":" +:+ JS.toLowerCase contractAddress
      +:+ ":" +:+ tokenId
  | _, _ =>
      ChainType_str chain +:+ ":" +:+ JS.toLowerCase contractAddress
      +:+ ":" +:+ tokenId
  end.

(** The object [parseId] returns. [evmChain] is [parts[1] as EVMChain], a
    cast that checks nothing: the field holds the raw segment. *)
Record ParsedId := mkParsedId {
  chain : ChainType;
  evmChain : option string;
  contractAddress : string;
  tokenId : string
}.

(** [parseId(id)]; [None] is the [null] result. *)
Definition parseId (id : string) : option ParsedId :=
  let parts := JS.split ":" id in
  if String.eqb (default "" (parts !! 0%nat)) "evm"
     && Nat.eqb (length parts) 4 then
    Some {| chain := evm;
            evmChain := parts !! 1%nat;
            contractAddress := default "" (parts !! 2%nat);
            tokenId := default "" (parts !! 3%nat) |}
  else if String.eqb (default "" (parts !! 0%nat)) "solana"
          && Nat.eqb (length parts) 2 then
    Some {| chain := solana;
            evmChain := None;
            contractAddress := default "" (parts !! 1%nat);
            tokenId := default "" (parts !! 1%nat) |}
  else None.

End NFTNormalizer.

(* ===================================================================== *)
(** ** JavaScript containers: [Array.prototype.sort], [Map], [Set] *)
(* ===================================================================== *)

Module JSArray.

(** [Array.prototype.sort] is stable; it is modelled by a stable insertion
    sort. [le a b] says that the comparator does not put [b] before [a]
    (for a comparator function [cmp]: [cmp(a, b) <= 0]). *)
Fixpoint insert {A} (le : A -> A -> bool) (x : A) (l : list A) : list A :=
  match l with
  | [] => [x]
  | y :: l' => if le x y then x :: l else y :: insert le x l'
  end.

Definition sort {A} (le : A -> A -> bool) (l : list A) : list A :=
  foldr (insert le) [] l.

End JSArray.

(** A [Map] with string keys: the entries in insertion order. *)
Module JSMap.

Definition t (V : Type) := list (string * V).

Fixpoint get {V} (k : string) (m : t V) : option V :=
  match m with
  | [] => None
  | (k', v) :: m' => if String.eqb k k' then Some v else get k m'
  end.

Definition has {V} (k : string) (m : t V) : bool :=
  match get k m with Some _ => true | None => false end.

(** [m.set(k, v)]: an existing key keeps its position. *)
Fixpoint set {V} (k : string) (v : V) (m : t V) : t V :=
  match m with
  | [] => [(k, v)]
  | (k', v') :: m' =>
      if String.eqb k k' then (k, v) :: m' else (k', v') :: set k v m'
  end.

(** [Array.from(m.entries())] *)
Definition entries {V} (m : t V) : list (string * V) := m.

End JSMap.

(** A [Set] of strings: the elements in insertion order. *)
Module JSSet.

Definition t := list string.

Definition has (x : string) (s : t) : bool := existsb (String.eqb x) s.

Definition add (x : string) (s : t) : t :=
  if has x s then s else s ++ [x].

End JSSet.

(* ===================================================================== *)
(** ** Farcaster detector ([src/services/nft/detector.ts]) *)
(* ===================================================================== *)

Module FarcasterDetector.

Definition FARCASTER_CONTRACTS : JSSet.t :=
  [ "0x7c74dfe39976dc395529c14e54a597809980e01c";
    "0x04e2516a2c207e84a1839755675dfd8ef6302f0a";
    "0x8087039152c472fa74f47398628ff002994056ea";
    "0x86c1fe6c5b5c9f0c9b8c3a9b0b5e3e9c5c5c5c5c" ].

Definition FARCASTER_KEYWORDS : list string :=
  [ "farcaster"; "warpcast"; "fc channel"; "/channel/";
    "minted on farcaster"; "farcaster mint" ].

(** *** The channel patterns

    Each of the four regular expressions is a literal, optionally followed
    by [\s*], followed by the capture [([a-z0-9-]+)], under the [/i]
    flag. *)
Record pattern := mkPattern { literal : string; spaces : bool }.

Definition CHANNEL_PATTERNS : list pattern :=
  [ mkPattern "/" false;
    mkPattern "farcaster.xyz/" false;
    mkPattern "warpcast.com/~/" false;
    mkPattern "channel:" true ].

(** [[a-z0-9-]] under [/i]. *)
Definition is_channel_char (c : ascii) : bool :=
  let n := N_of_ascii c in
  (((97 <=? n) && (n <=? 122)) || ((65 <=? n) && (n <=? 90))
   || ((48 <=? n) && (n <=? 57)) || (n =? 45))%N.

(** [\s] on the code units below 256. *)
Definition is_space (c : ascii) : bool :=
  let n := N_of_ascii c in
  (((9 <=? n) && (n <=? 13)) || (n =? 32) || (n =? 160))%N.

(** Match the literal [p] (lower case letters and punctuation) at the start
    of [s], ignoring case; the rest of [s] on success. *)
Fixpoint strip_literal (p s : string) : option string :=
  match p, s with
  | EmptyString, _ => Some s
  | String a p', String c s' =>
      if Ascii.eqb (JS.lower_char c) a then strip_literal p' s' else None
  | String _ _, EmptyString => None
  end.

Fixpoint skip_spaces (s : string) : string :=
  match s with
  | String c s' => if is_space c then skip_spaces s' else s
  | EmptyString => EmptyString
  end.

Fixpoint take_channel (s : string) : string :=
  match s with
  | String c s' =>
      if is_channel_char c then String c (take_channel s') else EmptyString
  | EmptyString => EmptyString
  end.

(** The capture of a match that starts at the first code unit of [s]. *)
Definition match_here (p : pattern) (s : string) : option string :=
  match strip_literal (literal p) s with
  | Some rest =>
      let rest' := if spaces p then skip_spaces rest else rest in
      let cap := take_channel rest' in
      if String.eqb cap "" then None else Some cap
  | None => None
  end.

(** [text.match(pattern)[1]]: the capture of the leftmost match. *)
Fixpoint match_capture (p : pattern) (s : string) : option string :=
  match match_here p s with
  | Some cap => Some cap
  | None =>
      match s with
      | EmptyString => None
      | String _ s' => match_capture p s'
      end
  end.

(** [hasKeywords(text)] *)
Definition hasKeywords (text : option string) : bool :=
  match text with
  | None => false
  | Some t =>
      if String.eqb t "" then false
      else
        let lowerText := JS.toLowerCase t in
        existsb (fun keyword => JS.includes keyword lowerText)
                FARCASTER_KEYWORDS
  end.

(** [hasAttributeKeywords(attributes)] *)
Definition hasAttributeKeywords (attributes : option (list NFTAttribute.t))
    : bool :=
  match attributes with
  | None => false
  | Some attrs =>
      existsb
        (fun attr =>
           let traitType := JS.toLowerCase (NFTAttribute.trait_type attr) in
           let value := JS.toLowerCase (String_of (NFTAttribute.value attr)) in
           existsb (fun keyword => JS.includes keyword traitType)
                   FARCASTER_KEYWORDS
           || existsb (fun keyword => JS.includes keyword value)
                      FARCASTER_KEYWORDS)
        attrs
  end.

(** [isFarcasterUrl(url)] *)
Definition isFarcasterUrl (url : option string) : bool :=
  match url with
  | None => false
  | Some u =>
      if String.eqb u "" then false
      else
        let lowerUrl := JS.toLowerCase u in
        JS.includes "farcaster.xyz" lowerUrl
        || JS.includes "warpcast.com" lowerUrl
        || JS.includes "supercast.xyz" lowerUrl
  end.

(** The [for (const pattern of CHANNEL_PATTERNS)] loop: the capture of the
    first pattern that matches [text]. *)
Fixpoint first_capture (patterns : list pattern) (text : string)
    : option string :=
  match patterns with
  | [] => None
  | p :: ps =>
      match match_capture p text with
      | Some cap => if String.eqb cap "" then first_capture ps text
                    else Some (JS.toLowerCase cap)
      | None => first_capture ps text
      end
  end.

(** [extractChannelFromText(text)] *)
Definition extractChannelFromText (text : option string) : option string :=
  match text with
  | None => None
  | Some t =>
      if String.eqb t "" then None else first_capture CHANNEL_PATTERNS t
  end.

(** [isFarcasterMint(nft)] *)
Definition isFarcasterMint (nft : NFT.t) : bool :=
  if JSSet.has (JS.toLowerCase (NFT.contractAddress nft)) FARCASTER_CONTRACTS
  then true
  else
    let isBaseChain :=
      match NFT.chain nft, NFT.evmChain nft with
      | evm, Some base => true
      | _, _ => false
      end in
    if hasKeywords (NFT.description nft) then true
    else if hasAttributeKeywords (NFTMetadata.attributes (NFT.metadata nft))
    then true
    else if isFarcasterUrl (NFT.externalUrl nft) then true
    else if hasKeywords (Some (NFTCollection.name (NFT.collection nft)))
            || hasKeywords (NFTCollection.description (NFT.collection nft))
    then true
    else false.

(** [extractChannel(nft)] *)
Definition extractChannel (nft : NFT.t) : option string :=
  let channel := extractChannelFromText (NFT.description nft) in
  if JS.truthy channel then channel
  else
    let channel := extractChannelFromText (NFT.externalUrl nft) in
    if JS.truthy channel then channel
    else
      let channelAttr :=
        NFTMetadata.attributes (NFT.metadata nft) ≫=
          find (fun attr =>
                  JS.includes "channel"
                    (JS.toLowerCase (NFTAttribute.trait_type attr))
                  || JS.includes "farcaster"
                       (JS.toLowerCase (NFTAttribute.trait_type attr))) in
      let channel :=
        match channelAttr with
        | Some attr =>
            extractChannelFromText
              (Some (String_of (NFTAttribute.value attr)))
        | None => None
        end in
      if JS.truthy channel then channel
      else
        let channel :=
          extractChannelFromText
            (Some (NFTCollection.name (NFT.collection nft))) in
        if JS.truthy channel then channel
        else
          let channel :=
            extractChannelFromText
              (NFTCollection.description (NFT.collection nft)) in
          if JS.truthy channel then channel else None.

(** [enrichNFT(nft)]: the two spreads, field by field. *)
Definition enrichNFT (nft : NFT.t) : NFT.t :=
  let isFarcasterMint := isFarcasterMint nft in
  let farcasterChannel :=
    if isFarcasterMint then extractChannel nft else None in
  {| NFT.id := NFT.id nft;
     NFT.walletId := NFT.walletId nft;
     NFT.chain := NFT.chain nft;
     NFT.evmChain := NFT.evmChain nft;
     NFT.contractAddress := NFT.contractAddress nft;
     NFT.tokenId := NFT.tokenId nft;
     NFT.name := NFT.name nft;
     NFT.description := NFT.description nft;
     NFT.image := NFT.image nft;
     NFT.imageOptimized := NFT.imageOptimized nft;
     NFT.animationUrl := NFT.animationUrl nft;
     NFT.externalUrl := NFT.externalUrl nft;
     NFT.collection := NFT.collection nft;
     NFT.metadata :=
       {| NFTMetadata.attributes :=
            NFTMetadata.attributes (NFT.metadata nft);
          NFTMetadata.isFarcasterMint := isFarcasterMint;
          NFTMetadata.farcasterChannel := farcasterChannel;
          NFTMetadata.mintedAt := NFTMetadata.mintedAt (NFT.metadata nft);
          NFTMetadata.creator := NFTMetadata.creator (NFT.metadata nft);
          NFTMetadata.royalties := NFTMetadata.royalties (NFT.metadata nft) |};
     NFT.lastFetched := NFT.lastFetched nft |}.

(** [enrichNFTs(nfts)] *)
Definition enrichNFTs (nfts : list NFT.t) : list NFT.t :=
  map enrichNFT nfts.

(** [groupByChannel(nfts)] *)
Definition groupByChannel (nfts : list NFT.t) : JSMap.t (list NFT.t) :=
  foldl
    (fun groups nft =>
       let channel :=
         default "Unknown Channel"
           (JS.or (NFTMetadata.farcasterChannel (NFT.metadata nft))
                  (Some "Unknown Channel")) in
       let groups :=
         if JSMap.has channel groups then groups
         else JSMap.set channel [] groups in
       JSMap.set channel (default [] (JSMap.get channel groups) ++ [nft])
                 groups)
    []
    (List.filter (fun nft => NFTMetadata.isFarcasterMint (NFT.metadata nft))
                 nfts).

(** The body of the [forEach] of [getChannels]. *)
Definition collect (channels : JSSet.t) (nft : NFT.t) : JSSet.t :=
  if JS.truthy (NFTMetadata.farcasterChannel (NFT.metadata nft))
  then JSSet.add
         (default "" (NFTMetadata.farcasterChannel (NFT.metadata nft)))
         channels
  else channels.

(** [getChannels(nfts)]; the default [sort()] orders strings by their code
    units. *)
Definition getChannels (nfts : list NFT.t) : list string :=
  let channels :=
    foldl collect []
      (List.filter (fun nft => NFTMetadata.isFarcasterMint (NFT.metadata nft))
                   nfts) in
  JSArray.sort String.leb channels.

End FarcasterDetector.

(* ===================================================================== *)
(** ** Grid presentation ([groupAndSortNFTs]) *)
(* ===================================================================== *)

Module SectionHeader.
(** [isHeader: true] is the constructor [Grid.Header] below. *)
Record t := mk { title : string; count : option Z }.
End SectionHeader.

Module Grid.

(** [NFT | SectionHeader] *)
Inductive row :=
| Header (h : SectionHeader.t)
| Card (nft : NFT.t).

(** The body of [nfts.forEach] in the ['collection'] case. *)
Definition group_step (collections : JSMap.t (list NFT.t)) (nft : NFT.t)
    : JSMap.t (list NFT.t) :=
  let key := NFTCollection.address (NFT.collection nft) in
  let collections :=
    if JSMap.has key collections then collections
    else JSMap.set key [] collections in
  JSMap.set key (default [] (JSMap.get key collections) ++ [nft]) collections.

(** [a[0].collection.name] *)
Definition first_name (a : list NFT.t) : string :=
  default "" (NFTCollection.name <$> (NFT.collection <$> head a)).

(** What [sortedCollections.forEach] pushes for one entry. *)
Definition section (collectionNfts : list NFT.t) : list row :=
  Header {| SectionHeader.title := first_name collectionNfts;
            SectionHeader.count := Some (Z.of_nat (length collectionNfts)) |}
  :: map Card collectionNfts.

Definition price (nft : NFT.t) : Q :=
  default 0%Q (FloorPrice.amount <$> NFTCollection.floorPrice (NFT.collection nft)).

(** [groupAndSortNFTs(nfts, sortMode)]; [localeCompare a b] is
    [a.localeCompare(b)], which depends on the locale of the platform. *)
Definition groupAndSortNFTs (localeCompare : string -> string -> Z)
    (nfts : list NFT.t) (sortMode : SortMode) : list row :=
  match sortMode with
  | collection =>
      let collections := foldl group_step [] nfts in
      let sortedCollections :=
        JSArray.sort
          (fun a b =>
             localeCompare (first_name (snd a)) (first_name (snd b)) <=? 0)
          (JSMap.entries collections) in
      concat (map (fun e => section (snd e)) sortedCollections)
  | farcaster =>
      let farcasterNfts :=
        List.filter (fun nft => NFTMetadata.isFarcasterMint (NFT.metadata nft))
                    nfts in
      let otherNfts :=
        List.filter
          (fun nft => negb (NFTMetadata.isFarcasterMint (NFT.metadata nft)))
          nfts in
      (if (0 <? length farcasterNfts)%nat
       then Header {| SectionHeader.title := "Farcaster Mints";
                      SectionHeader.count :=
                        Some (Z.of_nat (length farcasterNfts)) |}
            :: map Card farcasterNfts
       else [])
      ++
      (if (0 <? length otherNfts)%nat
       then Header {| SectionHeader.title := "Other NFTs";
                      SectionHeader.count :=
                        Some (Z.of_nat (length otherNfts)) |}
            :: map Card otherNfts
       else [])
  | value =>
      map Card
        (JSArray.sort (fun a b => Qle_bool (price b) (price a)) nfts)
  | recent | custom =>
      map Card
        (JSArray.sort (fun a b => NFT.lastFetched b <=? NFT.lastFetched a) nfts)
  end.

(** [group_step] as one pass over the entries: the record joins the group
    of its key, or opens a new group at the end. *)
Fixpoint push_to (key : string) (nft : NFT.t) (m : JSMap.t (list NFT.t))
    : JSMap.t (list NFT.t) :=
  match m with
  | [] => [(key, [nft])]
  | (k, g) :: m' =>
      if String.eqb key k then (key, g ++ [nft]) :: m'
      else (k, g) :: push_to key nft m'
  end.

(** Every group has a member, and its members have the collection address
    that is its key. *)
Definition grouped (m : JSMap.t (list NFT.t)) : Prop :=
  Forall
    (fun e =>
       snd e <> []
       /\ Forall (fun nft => NFTCollection.address (NFT.collection nft) = fst e)
                 (snd e))
    m.

(** The cards between a header and the next header carry the title of the
    header as their collection name. *)
Definition titled_by_name (rows : list row) : Prop :=
  forall (pre : list row) (h : SectionHeader.t) (mem : list NFT.t)
         (post : list row),
    rows = pre ++ Header h :: map Card mem ++ post ->
    Forall
      (fun nft => NFTCollection.name (NFT.collection nft) = SectionHeader.title h)
      mem.

(** The title of a header is the collection name of the first card after it,
    and the cards up to the next header have the collection address of that
    first card. *)
Definition titled_by_first (rows : list row) : Prop :=
  forall (pre : list row) (h : SectionHeader.t) (first : NFT.t)
         (mem : list NFT.t) (post : list row),
    rows = pre ++ Header h :: map Card (first :: mem) ++ post ->
    NFTCollection.name (NFT.collection first) = SectionHeader.title h
    /\ Forall
         (fun nft =>
            NFTCollection.address (NFT.collection nft)
            = NFTCollection.address (NFT.collection first))
         mem.

(** The sum of the counts of the headers of a display list. *)
Fixpoint header_total (rows : list row) : Z :=
  match rows with
  | [] => 0
  | Header h :: rows' => default 0 (SectionHeader.count h) + header_total rows'
  | Card _ :: rows' => header_total rows'
  end.

End Grid.

(* ===================================================================== *)
(** ** Store (the Zustand store) *)
(* ===================================================================== *)

(** [Omit<Wallet, 'id' | 'addedAt'>] *)
Module WalletInput.
Record t := mk {
  address : string;
  chain : ChainType;
  evmChain : option EVMChain;
  label : option string;
  color : option string;
  isActive : option bool
}.
End WalletInput.

(** [Partial<NFT>]: [None] is a key that the object does not have. A key of
    an optional field can be present with the value [undefined]. *)
Module PartialNFT.
Record t := mk {
  id : option string;
  walletId : option string;
  chain : option ChainType;
  evmChain : option (option EVMChain);
  contractAddress : option string;
  tokenId : option string;
  name : option string;
  description : option (option string);
  image : option string;
  imageOptimized : option (option string);
  animationUrl : option (option string);
  externalUrl : option (option string);
  collection : option NFTCollection.t;
  metadata : option NFTMetadata.t;
  lastFetched : option Z
}.

Definition empty : t :=
  mk None None None None None None None None None None None None None None None.
End PartialNFT.

Module Store.

(** The data of [AppStore]. *)
Record t := mk {
  wallets : list Wallet.t;
  activeWalletId : option string;
  nfts : gmap string NFT.t;
  collections : gmap string Collection.t;
  customGroups : list CustomGroup.t;
  viewMode : ViewMode;
  sortMode : SortMode;
  filterOptions : FilterOptions.t;
  settings : AppSettings.t
}.

Definition defaultSettings : AppSettings.t :=
  {| AppSettings.refreshInterval := 5;
     AppSettings.showFloorPrice := true;
     AppSettings.theme := auto;
     AppSettings.defaultView := grid;
     AppSettings.defaultSort := recent;
     AppSettings.imageQuality := medium;
     AppSettings.enableNotifications := false |}.

Definition initial : t :=
  {| wallets := [];
     activeWalletId := None;
     nfts := ∅;
     collections := ∅;
     customGroups := [];
     viewMode := grid;
     sortMode := recent;
     filterOptions := FilterOptions.mk None None None None None;
     settings := defaultSettings |}.

(** [set(partial)] merges the returned keys into the state. *)
Definition set_wallets (ws : list Wallet.t) (a : option string) (s : t) : t :=
  mk ws a (nfts s) (collections s) (customGroups s) (viewMode s)
     (sortMode s) (filterOptions s) (settings s).

Definition set_activeWalletId (a : option string) (s : t) : t :=
  mk (wallets s) a (nfts s) (collections s) (customGroups s) (viewMode s)
     (sortMode s) (filterOptions s) (settings s).

Definition set_nfts (m : gmap string NFT.t) (s : t) : t :=
  mk (wallets s) (activeWalletId s) m (collections s) (customGroups s)
     (viewMode s) (sortMode s) (filterOptions s) (settings s).

Definition set_nfts_collections (m : gmap string NFT.t)
    (c : gmap string Collection.t) (s : t) : t :=
  mk (wallets s) (activeWalletId s) m c (customGroups s)
     (viewMode s) (sortMode s) (filterOptions s) (settings s).

(** [`wallet_${Date.now()}_${Math.random().toString(36).substr(2, 9)}`];
    [now] is the clock reading and [rnd] the random suffix. *)
Definition wallet_id (now : Z) (rnd : string) : string :=
  "wallet_" +:+ NilEmpty.string_of_int (Z.to_int now) +:+ "_" +:+ rnd.

(** [addWallet(wallet)]; [now] and [rnd] make the id, [addedAt] is the
    second clock reading. *)
Definition addWallet (now : Z) (rnd : string) (addedAt : Z)
    (wallet : WalletInput.t) (state : t) : t :=
  let id := wallet_id now rnd in
  let newWallet :=
    {| Wallet.id := id;
       Wallet.address := WalletInput.address wallet;
       Wallet.chain := WalletInput.chain wallet;
       Wallet.evmChain := WalletInput.evmChain wallet;
       Wallet.label := WalletInput.label wallet;
       Wallet.color := WalletInput.color wallet;
       Wallet.addedAt := addedAt;
       Wallet.isActive := Some true |} in
  set_wallets (wallets state ++ [newWallet])
              (JS.or (activeWalletId state) (Some id))
              state.

(** [setActiveWallet(id)] *)
Definition setActiveWallet (id : option string) (state : t) : t :=
  set_activeWalletId id state.

(** [Array.from(m.values()).filter(nft => nft.walletId === walletId)
      .forEach(nft => m.delete(nft.id))] *)
Definition delete_wallet_nfts (walletId : string) (m : gmap string NFT.t)
    : gmap string NFT.t :=
  foldl (fun acc nft => delete (NFT.id nft) acc) m
    (List.filter (fun nft => String.eqb (NFT.walletId nft) walletId)
                 (map snd (map_to_list m))).

(** [removeNFTsByWallet(walletId)] *)
Definition removeNFTsByWallet (walletId : string) (state : t) : t :=
  set_nfts (delete_wallet_nfts walletId (nfts state)) state.

(** [removeWallet(id)] *)
Definition removeWallet (id : string) (state : t) : t :=
  let newWallets :=
    List.filter (fun w => negb (String.eqb (Wallet.id w) id)) (wallets state) in
  let newActiveId :=
    match activeWalletId state with
    | Some a => if String.eqb a id then Wallet.id <$> head newWallets
                else Some a
    | None => None
    end in
  removeNFTsByWallet id (set_wallets newWallets newActiveId state).

(** [`${nft.chain}:${nft.contractAddress}`] *)
Definition collectionId (nft : NFT.t) : string :=
  ChainType_str (NFT.chain nft) +:+ ":" +:+ NFT.contractAddress nft.

(** The body of [nfts.forEach] in [setNFTs], on the two maps. *)
Definition add_nft (acc : gmap string NFT.t * gmap string Collection.t)
    (nft : NFT.t) : gmap string NFT.t * gmap string Collection.t :=
  let newNftsMap := <[NFT.id nft := nft]> (fst acc) in
  let collectionId := collectionId nft in
  match snd acc !! collectionId with
  | None =>
      (newNftsMap,
       <[collectionId :=
           {| Collection.id := collectionId;
              Collection.name := NFTCollection.name (NFT.collection nft);
              Collection.contractAddress := NFT.contractAddress nft;
              Collection.chain := NFT.chain nft;
              Collection.evmChain := NFT.evmChain nft;
              Collection.nftCount := 1;
              Collection.floorPrice :=
                NFTCollection.floorPrice (NFT.collection nft);
              Collection.imageUrl :=
                NFTCollection.imageUrl (NFT.collection nft);
              Collection.description :=
                NFTCollection.description (NFT.collection nft);
              Collection.externalUrl := None |}]> (snd acc))
  | Some existing =>
      (newNftsMap,
       <[collectionId :=
           {| Collection.id := Collection.id existing;
              Collection.name := Collection.name existing;
              Collection.contractAddress := Collection.contractAddress existing;
              Collection.chain := Collection.chain existing;
              Collection.evmChain := Collection.evmChain existing;
              Collection.nftCount := Collection.nftCount existing + 1;
              Collection.floorPrice := Collection.floorPrice existing;
              Collection.imageUrl := Collection.imageUrl existing;
              Collection.description := Collection.description existing;
              Collection.externalUrl := Collection.externalUrl existing |}]>
         (snd acc))
  end.

(** [setNFTs(walletId, nfts)] *)
Definition setNFTs (walletId : string) (new_nfts : list NFT.t) (state : t)
    : t :=
  let newNftsMap := delete_wallet_nfts walletId (nfts state) in
  let newCollectionsMap := collections state in
  let acc := foldl add_nft (newNftsMap, newCollectionsMap) new_nfts in
  set_nfts_collections (fst acc) (snd acc) state.

(** [{ ...existing, ...updates }] *)
Definition merge (existing : NFT.t) (updates : PartialNFT.t) : NFT.t :=
  {| NFT.id := default (NFT.id existing) (PartialNFT.id updates);
     NFT.walletId :=
       default (NFT.walletId existing) (PartialNFT.walletId updates);
     NFT.chain := default (NFT.chain existing) (PartialNFT.chain updates);
     NFT.evmChain :=
       default (NFT.evmChain existing) (PartialNFT.evmChain updates);
     NFT.contractAddress :=
       default (NFT.contractAddress existing)
               (PartialNFT.contractAddress updates);
     NFT.tokenId := default (NFT.tokenId existing) (PartialNFT.tokenId updates);
     NFT.name := default (NFT.name existing) (PartialNFT.name updates);
     NFT.description :=
       default (NFT.description existing) (PartialNFT.description updates);
     NFT.image := default (NFT.image existing) (PartialNFT.image updates);
     NFT.imageOptimized :=
       default (NFT.imageOptimized existing)
               (PartialNFT.imageOptimized updates);
     NFT.animationUrl :=
       default (NFT.animationUrl existing) (PartialNFT.animationUrl updates);
     NFT.externalUrl :=
       default (NFT.externalUrl existing) (PartialNFT.externalUrl updates);
     NFT.collection :=
       default (NFT.collection existing) (PartialNFT.collection updates);
     NFT.metadata :=
       default (NFT.metadata existing) (PartialNFT.metadata updates);
     NFT.lastFetched :=
       default (NFT.lastFetched existing) (PartialNFT.lastFetched updates) |}.

(** [updateNFT(id, updates)] *)
Definition updateNFT (id : string) (updates : PartialNFT.t) (state : t) : t :=
  let newNftsMap := nfts state in
  match newNftsMap !! id with
  | Some existing => set_nfts (<[id := merge existing updates]> newNftsMap) state
  | None => set_nfts newNftsMap state
  end.

(** [getNFTsByWallet(walletId)], as the set of records it returns. *)
Definition getNFTsByWallet (walletId : string) (state : t) : list NFT.t :=
  List.filter (fun nft => String.eqb (NFT.walletId nft) walletId)
              (map snd (map_to_list (nfts state))).

(** Every record is stored under its own [id], as [setNFTs] stores it. *)
Definition keyed (m : gmap string NFT.t) : Prop :=
  map_Forall (fun k nft => NFT.id nft = k) m.

(** The count of the aggregate [cid], 0 when there is none. *)
Definition nftCount_of (c : gmap string Collection.t) (cid : string) : Z :=
  default 0 (Collection.nftCount <$> c !! cid).

End Store.

(* ===================================================================== *)
(** ** The five signals of the detector, as the specification lists them *)
(* ===================================================================== *)

Module Signals.

(** [kw] occurs in [s]. *)
Definition contains (kw s : string) : Prop :=
  exists pre post : string, s = pre +:+ kw +:+ post.

(** [text] contains one of the fixed keywords, ignoring case. *)
Definition mentions_keyword (text : string) : Prop :=
  exists kw : string,
    In kw FarcasterDetector.FARCASTER_KEYWORDS
    /\ contains kw (JS.toLowerCase text).

Definition FARCASTER_DOMAINS : list string :=
  [ "farcaster.xyz"; "warpcast.com"; "supercast.xyz" ].

(** (1) the lower-cased contract address is on the allow-list. *)
Definition allow_listed (nft : NFT.t) : Prop :=
  In (JS.toLowerCase (NFT.contractAddress nft))
     FarcasterDetector.FARCASTER_CONTRACTS.

(** (2) the description contains a keyword. *)
Definition description_keyword (nft : NFT.t) : Prop :=
  exists d : string, NFT.description nft = Some d /\ mentions_keyword d.

(** (3) the trait type or the stringified value of some attribute contains
    a keyword. *)
Definition attribute_keyword (nft : NFT.t) : Prop :=
  exists (attrs : list NFTAttribute.t) (attr : NFTAttribute.t),
    NFTMetadata.attributes (NFT.metadata nft) = Some attrs
    /\ In attr attrs
    /\ (mentions_keyword (NFTAttribute.trait_type attr)
        \/ mentions_keyword (String_of (NFTAttribute.value attr))).

(** (4) the external URL contains one of the three domains, ignoring
    case. *)
Definition farcaster_url (nft : NFT.t) : Prop :=
  exists u domain : string,
    NFT.externalUrl nft = Some u
    /\ In domain FARCASTER_DOMAINS
    /\ contains domain (JS.toLowerCase u).

(** (5) the collection name or the collection description contains a
    keyword. *)
Definition collection_keyword (nft : NFT.t) : Prop :=
  mentions_keyword (NFTCollection.name (NFT.collection nft))
  \/ exists d : string,
       NFTCollection.description (NFT.collection nft) = Some d
       /\ mentions_keyword d.

(** [nft] moved to another chain, every other field kept. *)
Definition on_chain (chain : ChainType) (evmChain : option EVMChain)
    (nft : NFT.t) : NFT.t :=
  {| NFT.id := NFT.id nft;
     NFT.walletId := NFT.walletId nft;
     NFT.chain := chain;
     NFT.evmChain := evmChain;
     NFT.contractAddress := NFT.contractAddress nft;
     NFT.tokenId := NFT.tokenId nft;
     NFT.name := NFT.name nft;
     NFT.description := NFT.description nft;
     NFT.image := NFT.image nft;
     NFT.imageOptimized := NFT.imageOptimized nft;
     NFT.animationUrl := NFT.animationUrl nft;
     NFT.externalUrl := NFT.externalUrl nft;
     NFT.collection := NFT.collection nft;
     NFT.metadata := NFT.metadata nft;
     NFT.lastFetched := NFT.lastFetched nft |}.

(** Ascending order of strings by code units, strict. *)
Definition code_unit_lt (a b : string) : Prop := String.ltb a b = true.

(** [c] is the channel of an element of [nfts] that is flagged as a
    Farcaster mint. *)
Definition flagged_channel (nfts : list NFT.t) (c : string) : Prop :=
  exists nft : NFT.t,
    In nft nfts
    /\ NFTMetadata.isFarcasterMint (NFT.metadata nft) = true
    /\ NFTMetadata.farcasterChannel (NFT.metadata nft) = Some c.

(** [c] is the channel of some element of [nfts]. *)
Definition listed_channel (nfts : list NFT.t) (c : string) : Prop :=
  exists nft : NFT.t,
    In nft nfts
    /\ NFTMetadata.farcasterChannel (NFT.metadata nft) = Some c.

End Signals.

(* ===================================================================== *)
(** ** Field-wise merge and the frame of a store update *)
(* ===================================================================== *)

Module Frame.

(** [new] is the value of the key in [updates] when the key is there, and
    the [old] value otherwise. *)
Definition overrides {A : Type} (old new : A) (update : option A) : Prop :=
  match update with
  | Some v => new = v
  | None => new = old
  end.

(** [r] is the field-wise merge of [existing] with [updates]. *)
Definition merged (existing : NFT.t) (updates : PartialNFT.t) (r : NFT.t)
    : Prop :=
  overrides (NFT.id existing) (NFT.id r) (PartialNFT.id updates)
  /\ overrides (NFT.walletId existing) (NFT.walletId r)
               (PartialNFT.walletId updates)
  /\ overrides (NFT.chain existing) (NFT.chain r) (PartialNFT.chain updates)
  /\ overrides (NFT.evmChain existing) (NFT.evmChain r)
               (PartialNFT.evmChain updates)
  /\ overrides (NFT.contractAddress existing) (NFT.contractAddress r)
               (PartialNFT.contractAddress updates)
  /\ overrides (NFT.tokenId existing) (NFT.tokenId r)
               (PartialNFT.tokenId updates)
  /\ overrides (NFT.name existing) (NFT.name r) (PartialNFT.name updates)
  /\ overrides (NFT.description existing) (NFT.description r)
               (PartialNFT.description updates)
  /\ overrides (NFT.image existing) (NFT.image r) (PartialNFT.image updates)
  /\ overrides (NFT.imageOptimized existing) (NFT.imageOptimized r)
               (PartialNFT.imageOptimized updates)
  /\ overrides (NFT.animationUrl existing) (NFT.animationUrl r)
               (PartialNFT.animationUrl updates)
  /\ overrides (NFT.externalUrl existing) (NFT.externalUrl r)
               (PartialNFT.externalUrl updates)
  /\ overrides (NFT.collection existing) (NFT.collection r)
               (PartialNFT.collection updates)
  /\ overrides (NFT.metadata existing) (NFT.metadata r)
               (PartialNFT.metadata updates)
  /\ overrides (NFT.lastFetched existing) (NFT.lastFetched r)
               (PartialNFT.lastFetched updates).

(** The two states agree on everything but the NFT map. *)
Definition same_but_nfts (s s' : Store.t) : Prop :=
  Store.wallets s' = Store.wallets s
  /\ Store.activeWalletId s' = Store.activeWalletId s
  /\ Store.collections s' = Store.collections s
  /\ Store.customGroups s' = Store.customGroups s
  /\ Store.viewMode s' = Store.viewMode s
  /\ Store.sortMode s' = Store.sortMode s
  /\ Store.filterOptions s' = Store.filterOptions s
  /\ Store.settings s' = Store.settings s.

(** The two states agree on everything but the wallets and the active
    wallet. *)
Definition same_but_wallets (s s' : Store.t) : Prop :=
  Store.nfts s' = Store.nfts s
  /\ Store.collections s' = Store.collections s
  /\ Store.customGroups s' = Store.customGroups s
  /\ Store.viewMode s' = Store.viewMode s
  /\ Store.sortMode s' = Store.sortMode s
  /\ Store.filterOptions s' = Store.filterOptions s
  /\ Store.settings s' = Store.settings s.

(** The number of records of [nfts] that belong to the aggregate [cid]. *)
Definition sightings (cid : string) (nfts : list NFT.t) : Z :=
  Z.of_nat
    (length (List.filter (fun nft => String.eqb (Store.collectionId nft) cid)
                         nfts)).

End Frame.

(* ===================================================================== *)
(** ** Sample data *)
(* ===================================================================== *)

Module Examples.

(** The provider record of the scenario of section 8 of the
    specification. *)
Definition scenario_record : AlchemyNFT.t :=
  {| AlchemyNFT.contract :=
       AlchemyNFT.mk_contract "0xABC" None None None "ERC721";
     AlchemyNFT.tokenId := "7";
     AlchemyNFT.tokenType := "ERC721";
     AlchemyNFT.title := "";
     AlchemyNFT.description := None;
     AlchemyNFT.tokenUri := None;
     AlchemyNFT.media := [];
     AlchemyNFT.metadata :=
       AlchemyNFT.mk_metadata None None (Some "ipfs://abc") None None;
     AlchemyNFT.timeLastUpdated := "";
     AlchemyNFT.contractMetadata := None |}.

(** A record with the given id, wallet, collection address and name,
    Farcaster flag and channel. *)
Definition nft_of (id walletId address name : string) (flag : bool)
    (channel : option string) : NFT.t :=
  {| NFT.id := id;
     NFT.walletId := walletId;
     NFT.chain := evm;
     NFT.evmChain := Some base;
     NFT.contractAddress := address;
     NFT.tokenId := "1";
     NFT.name := "#1";
     NFT.description := None;
     NFT.image := "";
     NFT.imageOptimized := None;
     NFT.animationUrl := None;
     NFT.externalUrl := None;
     NFT.collection :=
       {| NFTCollection.name := name;
          NFTCollection.address := address;
          NFTCollection.description := None;
          NFTCollection.imageUrl := None;
          NFTCollection.externalUrl := None;
          NFTCollection.floorPrice := None |};
     NFT.metadata :=
       {| NFTMetadata.attributes := Some [];
          NFTMetadata.isFarcasterMint := flag;
          NFTMetadata.farcasterChannel := channel;
          NFTMetadata.mintedAt := None;
          NFTMetadata.creator := None;
          NFTMetadata.royalties := None |};
     NFT.lastFetched := 0 |}.

(** A comparison of strings by code units, for [localeCompare]. *)
Definition codeUnitCompare (a b : string) : Z :=
  match String.compare a b with Lt => -1 | Eq => 0 | Gt => 1 end.

(** A record that carries a channel but is not flagged as a Farcaster
    mint. *)
Definition unflagged : NFT.t :=
  nft_of "evm:base:0xc:1" "w1" "0xc" "Gallery" false (Some "art").

(** Two records of one contract address with different collection
    names. *)
Definition alpha : NFT.t := nft_of "evm:base:0xc:1" "w1" "0xc" "Alpha" false None.
Definition beta : NFT.t := nft_of "evm:base:0xc:2" "w1" "0xc" "Beta" false None.

(** A wallet to add. *)
Definition wallet_input : WalletInput.t :=
  {| WalletInput.address := "0x00000000000000000000000000000000000000aa";
     WalletInput.chain := evm;
     WalletInput.evmChain := Some base;
     WalletInput.label := None;
     WalletInput.color := None;
     WalletInput.isActive := None |}.

(** Three records of the wallet ["w1"]. *)
Definition first : NFT.t := nft_of "a" "w1" "0xc" "Gallery" false None.
Definition second : NFT.t := nft_of "c" "w1" "0xc" "Gallery" false None.
Definition third : NFT.t := nft_of "d" "w1" "0xd" "Museum" false None.

(** An update that renames the record: [{ id: "b" }]. *)
Definition rename : PartialNFT.t :=
  PartialNFT.mk (Some "b") None None None None None None None None None None
                None None None None.

(** An update of the display name: [{ name: "Renamed" }]. *)
Definition retitle : PartialNFT.t :=
  PartialNFT.mk None None None None None None (Some "Renamed") None None None
                None None None None None.

(** The store after [setNFTs("w1", [first])] and
    [updateNFT("a", { id: "b" })], starting from the initial state. *)
Definition renamed_store : Store.t :=
  Store.updateNFT "a" rename (Store.setNFTs "w1" [first] Store.initial).

(** The store after [setNFTs("w1", [first])], starting from the initial
    state. *)
Definition one_nft_store : Store.t := Store.setNFTs "w1" [first] Store.initial.

End Examples.

(* ===================================================================== *)
(** ** Normalizer: [createOptimizedUrl] *)
(* ===================================================================== *)

Module ImageProxy.

(** The code units that [encodeURIComponent] leaves as they are: letters,
    digits and [- _ . ! ~ * ' ( )]. *)
Definition is_unreserved (c : ascii) : bool :=
  let n := N_of_ascii c in
  (((65 <=? n) && (n <=? 90)) || ((97 <=? n) && (n <=? 122))
   || ((48 <=? n) && (n <=? 57))
   || existsb (N.eqb n) [45; 95; 46; 33; 126; 42; 39; 40; 41])%N.

Definition hex_digit (d : N) : ascii :=
  if (d <? 10)%N then ascii_of_N (48 + d) else ascii_of_N (55 + d).

(** [%HH] for one byte. *)
Definition percent (byte : N) : string :=
  String "%" (String (hex_digit (byte / 16)) (String (hex_digit (byte mod 16)) "")).

(** One code unit below 256: itself, or the bytes of its UTF-8 form (one
    byte below 128, else two), each as [%HH]. *)
Definition encode_char (c : ascii) : string :=
  let n := N_of_ascii c in
  if is_unreserved c then String c ""
  else if (n <? 128)%N then percent n
  else percent (192 + n / 64) +:+ percent (128 + n mod 64).

(** [encodeURIComponent(s)] *)
Fixpoint encodeURIComponent (s : string) : string :=
  match s with
  | EmptyString => EmptyString
  | String c s' => encode_char c +:+ encodeURIComponent s'
  end.

(** [createOptimizedUrl(originalUrl, width = 400)]; [None] is an omitted
    width. *)
Definition createOptimizedUrl (originalUrl : string) (width : option Z)
    : string :=
  if String.eqb originalUrl "" then ""
  else
    let normalizedUrl := NFTNormalizer.normalizeImageUrl originalUrl in
    "https://images.nebula.gg/cdn-cgi/image/width="
    +:+ String_of (VNumber (default 400 width))
    +:+ ",quality=85,format=auto/"
    +:+ encodeURIComponent normalizedUrl.

(** Every code unit of [s] satisfies [f]. *)
Fixpoint string_forall (f : ascii -> bool) (s : string) : bool :=
  match s with
  | EmptyString => true
  | String c s' => f c && string_forall f s'
  end.

(** The value of a hexadecimal digit. *)
Definition hex_value (c : ascii) : option N :=
  let n := N_of_ascii c in
  if ((48 <=? n) && (n <=? 57))%N then Some (n - 48)%N
  else if ((65 <=? n) && (n <=? 70))%N then Some (n - 55)%N
  else None.

(** Reads back what [encodeURIComponent] writes for the code units below
    256; [None] on anything else. *)
Fixpoint decode (s : string) : option string :=
  match s with
  | EmptyString => Some EmptyString
  | String "%" (String h (String l rest)) =>
      match hex_value h, hex_value l with
      | Some hv, Some lv =>
          let b := (16 * hv + lv)%N in
          if (b <? 128)%N then String (ascii_of_N b) <$> decode rest
          else
            match rest with
            | String "%" (String h2 (String l2 rest')) =>
                match hex_value h2, hex_value l2 with
                | Some hv2, Some lv2 =>
                    let b2 := (16 * hv2 + lv2)%N in
                    String (ascii_of_N (64 * (b - 192) + (b2 - 128)))
                      <$> decode rest'
                | _, _ => None
                end
            | _ => None
            end
      | _, _ => None
      end
  | String c rest =>
      if is_unreserved c then String c <$> decode rest else None
  end.

End ImageProxy.

(* ===================================================================== *)
(** ** NFT card ([src/components/NFTCard.tsx]) *)
(* ===================================================================== *)

Module NFTCard.

(** [nft.imageOptimized || nft.image], the source of the image. *)
Definition imageUrl (nft : NFT.t) : string :=
  default (NFT.image nft) (JS.or (NFT.imageOptimized nft) (Some (NFT.image nft))).

End NFTCard.

(* ===================================================================== *)
(** ** Shapes of channels, groups and display lists *)
(* ===================================================================== *)

Module Shape.

(** A lower case letter, a digit or a hyphen. *)
Definition is_channel_name_char (c : ascii) : bool :=
  let n := N_of_ascii c in
  (((97 <=? n) && (n <=? 122)) || ((48 <=? n) && (n <=? 57)) || (n =? 45))%N.

(** A channel name: one or more lower case letters, digits and hyphens. *)
Definition channel_name (c : string) : Prop :=
  c <> "" /\ ImageProxy.string_forall is_channel_name_char c = true.

(** The string has no [ipfs://] and no [ar://] scheme. *)
Definition gateway_free (url : string) : Prop :=
  JS.startsWith "ipfs://" url = false /\ JS.startsWith "ar://" url = false.

(** The label under which [groupByChannel] files a record. *)
Definition channel_label (nft : NFT.t) : string :=
  default "Unknown Channel"
    (JS.or (NFTMetadata.farcasterChannel (NFT.metadata nft))
           (Some "Unknown Channel")).

(** The records behind the cards of a display list, in order. *)
Fixpoint cards (rows : list Grid.row) : list NFT.t :=
  match rows with
  | [] => []
  | Grid.Header _ :: rows' => cards rows'
  | Grid.Card nft :: rows' => nft :: cards rows'
  end.

(** The records of [nfts] whose key is [k], in order. *)
Definition keyed_by (key : NFT.t -> string) (k : string) (nfts : list NFT.t)
    : list NFT.t :=
  List.filter (fun nft => String.eqb (key nft) k) nfts.

(** The collection address, the key of the ['collection'] mode. *)
Definition address_of (nft : NFT.t) : string :=
  NFTCollection.address (NFT.collection nft).


(** The record with its two detection fields set to the given values. *)
Definition with_detection (isFarcasterMint : bool)
    (farcasterChannel : option string) (nft : NFT.t) : NFT.t :=
  {| NFT.id := NFT.id nft;
     NFT.walletId := NFT.walletId nft;
     NFT.chain := NFT.chain nft;
     NFT.evmChain := NFT.evmChain nft;
     NFT.contractAddress := NFT.contractAddress nft;
     NFT.tokenId := NFT.tokenId nft;
     NFT.name := NFT.name nft;
     NFT.description := NFT.description nft;
     NFT.image := NFT.image nft;
     NFT.imageOptimized := NFT.imageOptimized nft;
     NFT.animationUrl := NFT.animationUrl nft;
     NFT.externalUrl := NFT.externalUrl nft;
     NFT.collection := NFT.collection nft;
     NFT.metadata :=
       {| NFTMetadata.attributes :=
            NFTMetadata.attributes (NFT.metadata nft);
          NFTMetadata.isFarcasterMint := isFarcasterMint;
          NFTMetadata.farcasterChannel := farcasterChannel;
          NFTMetadata.mintedAt := NFTMetadata.mintedAt (NFT.metadata nft);
          NFTMetadata.creator := NFTMetadata.creator (NFT.metadata nft);
          NFTMetadata.royalties := NFTMetadata.royalties (NFT.metadata nft) |};
     NFT.lastFetched := NFT.lastFetched nft |}.

End Shape.

(* ===================================================================== *)
(** ** Store: wallets, groups and the persisted subset *)
(* ===================================================================== *)

(** [Partial<Wallet>] *)
Module PartialWallet.
Record t := mk {
  id : option string;
  address : option string;
  chain : option ChainType;
  evmChain : option (option EVMChain);
  label : option (option string);
  color : option (option string);
  addedAt : option Z;
  isActive : option (option bool)
}.
End PartialWallet.

(** [Partial<CustomGroup>] *)
Module PartialGroup.
Record t := mk {
  id : option string;
  name : option string;
  description : option (option string);
  nftIds : option (list string);
  color : option string;
  icon : option (option string);
  createdAt : option Z;
  updatedAt : option Z
}.
End PartialGroup.

Module StoreOps.

Definition set_customGroups (gs : list CustomGroup.t) (s : Store.t) : Store.t :=
  Store.mk (Store.wallets s) (Store.activeWalletId s) (Store.nfts s)
           (Store.collections s) gs (Store.viewMode s) (Store.sortMode s)
           (Store.filterOptions s) (Store.settings s).



(** [useActiveWallet()]: [wallets.find((w) => w.id === activeId)] *)
Definition useActiveWallet (state : Store.t) : option Wallet.t :=
  match Store.activeWalletId state with
  | Some activeId =>
      find (fun w => String.eqb (Wallet.id w) activeId) (Store.wallets state)
  | None => None
  end.

(** The table of [getRandomColor]. *)
Definition colors : list string :=
  [ "#FF6B6B"; "#4ECDC4"; "#45B7D1"; "#FFA07A"; "#98D8C8";
    "#6C5CE7"; "#A29BFE"; "#FD79A8"; "#FDCB6E"; "#6C5CE7" ].

(** [getRandomColor()]; [r] is [Math.floor(Math.random() * colors.length)],
    a number below 10. *)
Definition getRandomColor (r : nat) : string := nth r colors "".

(** [`group_${Date.now()}_${Math.random().toString(36).substr(2, 9)}`] *)
Definition group_id (now : Z) (rnd : string) : string :=
  "group_" +:+ String_of (VNumber now) +:+ "_" +:+ rnd.

(** [createGroup(name, description, color)]: the id it returns and the next
    state. [now] and [rnd] make the id, [r] picks the random color,
    [createdAt] and [updatedAt] are the next two clock readings. *)
Definition createGroup (now : Z) (rnd : string) (r : nat)
    (createdAt updatedAt : Z) (name : string) (description color : option string)
    (state : Store.t) : string * Store.t :=
  let id := group_id now rnd in
  let newGroup :=
    {| CustomGroup.id := id;
       CustomGroup.name := name;
       CustomGroup.description := description;
       CustomGroup.nftIds := [];
       CustomGroup.color :=
         default (getRandomColor r) (JS.or color (Some (getRandomColor r)));
       CustomGroup.icon := None;
       CustomGroup.createdAt := createdAt;
       CustomGroup.updatedAt := updatedAt |} in
  (id, set_customGroups (Store.customGroups state ++ [newGroup]) state).

(** [customGroups.map((g) => g.id === id ? change(g) : g)]; the callback
    reads the clock once for every group it changes: the group at position
    [pos + i] gets the reading [clock (pos + i)]. *)
Fixpoint map_groups (id : string) (change : Z -> CustomGroup.t -> CustomGroup.t)
    (clock : nat -> Z) (pos : nat) (gs : list CustomGroup.t)
    : list CustomGroup.t :=
  match gs with
  | [] => []
  | g :: gs' =>
      (if String.eqb (CustomGroup.id g) id then change (clock pos) g else g)
      :: map_groups id change clock (S pos) gs'
  end.

(** [{ ...g, ...updates, updatedAt: Date.now() }] *)
Definition merge_group (updates : PartialGroup.t) (now : Z) (g : CustomGroup.t)
    : CustomGroup.t :=
  {| CustomGroup.id := default (CustomGroup.id g) (PartialGroup.id updates);
     CustomGroup.name := default (CustomGroup.name g) (PartialGroup.name updates);
     CustomGroup.description :=
       default (CustomGroup.description g) (PartialGroup.description updates);
     CustomGroup.nftIds :=
       default (CustomGroup.nftIds g) (PartialGroup.nftIds updates);
     CustomGroup.color :=
       default (CustomGroup.color g) (PartialGroup.color updates);
     CustomGroup.icon := default (CustomGroup.icon g) (PartialGroup.icon updates);
     CustomGroup.createdAt :=
       default (CustomGroup.createdAt g) (PartialGroup.createdAt updates);
     CustomGroup.updatedAt := now |}.

(** [updateGroup(id, updates)] *)
Definition updateGroup (clock : nat -> Z) (id : string)
    (updates : PartialGroup.t) (state : Store.t) : Store.t :=
  set_customGroups
    (map_groups id (merge_group updates) clock 0 (Store.customGroups state))
    state.

(** [deleteGroup(id)] *)
Definition deleteGroup (id : string) (state : Store.t) : Store.t :=
  set_customGroups
    (List.filter (fun g => negb (String.eqb (CustomGroup.id g) id))
                 (Store.customGroups state))
    state.

(** [[...new Set(ids)]]: the first occurrences, in order. *)
Definition unique (ids : list string) : list string := foldl (fun s x => JSSet.add x s) [] ids.

Definition with_nftIds (ids : list string) (now : Z) (g : CustomGroup.t)
    : CustomGroup.t :=
  {| CustomGroup.id := CustomGroup.id g;
     CustomGroup.name := CustomGroup.name g;
     CustomGroup.description := CustomGroup.description g;
     CustomGroup.nftIds := ids;
     CustomGroup.color := CustomGroup.color g;
     CustomGroup.icon := CustomGroup.icon g;
     CustomGroup.createdAt := CustomGroup.createdAt g;
     CustomGroup.updatedAt := now |}.

(** [addToGroup(groupId, nftIds)] *)
Definition addToGroup (clock : nat -> Z) (groupId : string)
    (nftIds : list string) (state : Store.t) : Store.t :=
  set_customGroups
    (map_groups groupId
       (fun now g => with_nftIds (unique (CustomGroup.nftIds g ++ nftIds)) now g)
       clock 0 (Store.customGroups state))
    state.


(** [getAllNFTs()], as the set of records it returns. *)
Definition getAllNFTs (state : Store.t) : list NFT.t :=
  map snd (map_to_list (Store.nfts state)).

(** [clearAllData()] *)
Definition clearAllData (state : Store.t) : Store.t :=
  Store.mk [] None ∅ ∅ [] (Store.viewMode state) (Store.sortMode state)
           (FilterOptions.mk None None None None None) (Store.settings state).

(** The object that [partialize] hands to the persistence layer. *)
Record persisted := mkPersisted {
  p_wallets : list Wallet.t;
  p_activeWalletId : option string;
  p_customGroups : list CustomGroup.t;
  p_settings : AppSettings.t;
  p_viewMode : ViewMode;
  p_sortMode : SortMode
}.

(** [partialize(state)] *)
Definition partialize (state : Store.t) : persisted :=
  {| p_wallets := Store.wallets state;
     p_activeWalletId := Store.activeWalletId state;
     p_customGroups := Store.customGroups state;
     p_settings := Store.settings state;
     p_viewMode := Store.viewMode state;
     p_sortMode := Store.sortMode state |}.

(** The active wallet id, when set, is the id of a wallet of the store. *)
Definition active_valid (s : Store.t) : Prop :=
  match Store.activeWalletId s with
  | Some a => In a (map Wallet.id (Store.wallets s))
  | None => True
  end.

(** The group of [gs] with the id [id], the first one. *)
Definition group_of (id : string) (gs : list CustomGroup.t)
    : option CustomGroup.t :=
  find (fun g => String.eqb (CustomGroup.id g) id) gs.

End StoreOps.

(* ===================================================================== *)
(** ** Fetchers (Helius and Alchemy) *)
(* ===================================================================== *)

(** The network and the clock are inputs. A fetcher is a function of what
    the provider answers; [Date.now()] is read once for every record that is
    normalized, the record number [i] of a fetch gets the reading
    [clock i]. *)
Module Http.

(** What [await fetch(...)] and [await response.json()] give: a rejection
    (network failure, unparseable body), or a response with its status and
    its parsed body. *)
Record response (B : Type) := mkResponse {
  ok : bool;
  status : Z;
  statusText : string;
  json : string + B
}.
Arguments mkResponse {B}.
Arguments ok {B}.
Arguments status {B}.
Arguments statusText {B}.
Arguments json {B}.

Inductive fetched (B : Type) :=
| Rejected (message : string)
| Responded (r : response B).
Arguments Rejected {B}.
Arguments Responded {B}.

(** The result of an [async] function: its value, the [Error] it throws, or
    no result within the given number of loop iterations. *)
Inductive outcome (A : Type) :=
| Done (a : A)
| Thrown (message : string)
| OutOfFuel.
Arguments Done {A}.
Arguments Thrown {A}.
Arguments OutOfFuel {A}.

(** [list.map(normalize)] with the clock: the record at position [i] of
    [l] is normalized at the reading [clock (pos + i)]. *)
Fixpoint map_clock {A B : Type} (f : Z -> A -> B) (clock : nat -> Z)
    (pos : nat) (l : list A) : list B :=
  match l with
  | [] => []
  | a :: l' => f (clock pos) a :: map_clock f clock (S pos) l'
  end.

End Http.

(** [PaginatedResult<NFT>] *)
Module PaginatedResult.
Record t := mk {
  items : list NFT.t;
  pageKey : option string;
  totalCount : option Z;
  hasMore : bool
}.
End PaginatedResult.

Module HeliusFetcher.

Import Http.

(** [HeliusResponse] *)
Record HeliusResponse := mkHeliusResponse {
  total : Z;
  limit : Z;
  page : Z;
  items : list HeliusAsset.t
}.

(** The JSON-RPC envelope: [error] is [data.error.message] when the
    envelope has an [error], [result] is [data.result]. *)
Record envelope := mkEnvelope {
  error : option string;
  result : HeliusResponse
}.

(** [makeRpcCall(method, params)], as a function of what the provider
    answers. *)
Definition makeRpcCall (answer : fetched envelope) : outcome HeliusResponse :=
  match answer with
  | Rejected message => Thrown message
  | Responded r =>
      if negb (ok r) then
        Thrown ("Helius API error: " +:+ String_of (VNumber (status r))
                +:+ " " +:+ statusText r)
      else
        match json r with
        | inl message => Thrown message
        | inr data =>
            match error data with
            | Some message => Thrown ("Helius RPC error: " +:+ message)
            | None => Done (result data)
            end
        end
  end.

(** [fetchPage(address, walletId, page, limit)]; [server page] is what the
    provider answers to the request for that page, [pos] the number of clock
    readings taken so far. *)
Definition fetchPage (server : Z -> fetched envelope) (clock : nat -> Z)
    (pos : nat) (walletId : string) (page : Z) (limit : nat)
    : outcome PaginatedResult.t :=
  match makeRpcCall (server page) with
  | Done response =>
      let nfts :=
        map_clock (fun now asset => NFTNormalizer.fromHelius now asset walletId)
                  clock pos (items response) in
      Done {| PaginatedResult.items := nfts;
              PaginatedResult.pageKey := None;
              PaginatedResult.totalCount := Some (total response);
              PaginatedResult.hasMore :=
                Nat.eqb (length (items response)) limit |}
  | Thrown message => Thrown message
  | OutOfFuel => OutOfFuel
  end.

(** The [while (hasMore)] loop of [fetchForWallet]; [fuel] bounds the
    number of iterations. *)
Fixpoint fetch_loop (server : Z -> fetched envelope) (clock : nat -> Z)
    (walletId : string) (fuel : nat) (page : Z) (allNFTs : list NFT.t)
    : outcome (list NFT.t) :=
  match fuel with
  | O => OutOfFuel
  | S fuel' =>
      match fetchPage server clock (length allNFTs) walletId page 1000 with
      | Done result =>
          let allNFTs := allNFTs ++ PaginatedResult.items result in
          if Nat.eqb (length (PaginatedResult.items result)) 1000
          then fetch_loop server clock walletId fuel' (page + 1) allNFTs
          else Done allNFTs
      | Thrown message => Thrown message
      | OutOfFuel => OutOfFuel
      end
  end.

(** [fetchForWallet(address, walletId)] *)
Definition fetchForWallet (server : Z -> fetched envelope) (clock : nat -> Z)
    (walletId : string) (fuel : nat) : outcome (list NFT.t) :=
  fetch_loop server clock walletId fuel 1 [].





End HeliusFetcher.

(** [AlchemyResponse] *)
Module AlchemyResponse.
Record t := mk {
  ownedNfts : list AlchemyNFT.t;
  totalCount : Z;
  pageKey : option string
}.
End AlchemyResponse.

Module AlchemyFetcher.

Import Http.

(** [mapChainToNetwork(chain)] *)
Definition mapChainToNetwork (chain : EVMChain) : string :=
  match chain with
  | ethereum => "eth-mainnet"
  | polygon => "polygon-mainnet"
  | arbitrum => "arb-mainnet"
  | optimism => "opt-mainnet"
  | base => "base-mainnet"
  | zora => "zora-mainnet"
  end.

(** The request of [fetchPage]: the URL before the [?] and the entries of
    its [URLSearchParams], in order. *)
Record request := mkRequest {
  url : string;
  params : list (string * string)
}.

(** The request that [fetchPage(address, chain, walletId, pageKey)] sends;
    [network] is computed as in the source. *)
Definition page_request (baseUrl apiKey address : string) (chain : EVMChain)
    (pageKey : option string) : request :=
  let network := mapChainToNetwork chain in
  let url := baseUrl +:+ "/" +:+ apiKey +:+ "/getNFTsForOwner" in
  let params :=
    [("owner", address); ("withMetadata", "true"); ("pageSize", "100")] in
  let params :=
    if JS.truthy pageKey then params ++ [("pageKey", default "" pageKey)]
    else params in
  {| url := url; params := params |}.

(** [fetchPage(address, chain, walletId, pageKey)]; [server req] is what the
    provider answers to the request. *)
Definition fetchPage (server : request -> fetched AlchemyResponse.t)
    (clock : nat -> Z) (dateGetTime : string -> Z) (pos : nat)
    (baseUrl apiKey address : string) (chain : EVMChain) (walletId : string)
    (pageKey : option string) : outcome PaginatedResult.t :=
  match server (page_request baseUrl apiKey address chain pageKey) with
  | Rejected message => Thrown message
  | Responded r =>
      if negb (ok r) then
        Thrown ("Alchemy API error: " +:+ String_of (VNumber (status r))
                +:+ " " +:+ statusText r)
      else
        match json r with
        | inl message => Thrown message
        | inr data =>
            let nfts :=
              map_clock
                (fun now alchemyNFT =>
                   NFTNormalizer.fromAlchemy now dateGetTime alchemyNFT
                                             walletId chain)
                clock pos (AlchemyResponse.ownedNfts data) in
            Done {| PaginatedResult.items := nfts;
                    PaginatedResult.pageKey := AlchemyResponse.pageKey data;
                    PaginatedResult.totalCount := Some (AlchemyResponse.totalCount data);
                    PaginatedResult.hasMore := JS.truthy (AlchemyResponse.pageKey data) |}
        end
  end.

(** The [while (hasMore)] loop of [fetchForWallet]; [fuel] bounds the
    number of iterations. *)
Fixpoint fetch_loop (server : request -> fetched AlchemyResponse.t)
    (clock : nat -> Z) (dateGetTime : string -> Z)
    (baseUrl apiKey address : string) (chain : EVMChain) (walletId : string)
    (fuel : nat) (pageKey : option string) (allNFTs : list NFT.t)
    : outcome (list NFT.t) :=
  match fuel with
  | O => OutOfFuel
  | S fuel' =>
      match fetchPage server clock dateGetTime (length allNFTs) baseUrl apiKey
                      address chain walletId pageKey with
      | Done result =>
          let allNFTs := allNFTs ++ PaginatedResult.items result in
          let pageKey := PaginatedResult.pageKey result in
          if PaginatedResult.hasMore result && JS.truthy pageKey
          then fetch_loop server clock dateGetTime baseUrl apiKey address chain
                          walletId fuel' pageKey allNFTs
          else Done allNFTs
      | Thrown message => Thrown message
      | OutOfFuel => OutOfFuel
      end
  end.

(** [fetchForWallet(address, chain, walletId)] *)
Definition fetchForWallet (server : request -> fetched AlchemyResponse.t)
    (clock : nat -> Z) (dateGetTime : string -> Z)
    (baseUrl apiKey address : string) (chain : EVMChain) (walletId : string)
    (fuel : nat) : outcome (list NFT.t) :=
  fetch_loop server clock dateGetTime baseUrl apiKey address chain walletId
             fuel None [].

(** The record as [fromAlchemy] builds it for the chain [chain]: the id and
    the sub-chain are rebuilt, every other field is kept. *)
Definition on_evm_chain (chain : EVMChain) (nft : NFT.t) : NFT.t :=
  {| NFT.id := "evm:" +:+ EVMChain_str chain +:+ ":" +:+ NFT.contractAddress nft
               +:+ ":" +:+ NFT.tokenId nft;
     NFT.walletId := NFT.walletId nft;
     NFT.chain := NFT.chain nft;
     NFT.evmChain := Some chain;
     NFT.contractAddress := NFT.contractAddress nft;
     NFT.tokenId := NFT.tokenId nft;
     NFT.name := NFT.name nft;
     NFT.description := NFT.description nft;
     NFT.image := NFT.image nft;
     NFT.imageOptimized := NFT.imageOptimized nft;
     NFT.animationUrl := NFT.animationUrl nft;
     NFT.externalUrl := NFT.externalUrl nft;
     NFT.collection := NFT.collection nft;
     NFT.metadata := NFT.metadata nft;
     NFT.lastFetched := NFT.lastFetched nft |}.

(** [f] applied to the value of an outcome. *)
Definition outcome_map {A B : Type} (f : A -> B) (o : outcome A) : outcome B :=
  match o with
  | Done a => Done (f a)
  | Thrown message => Thrown message
  | OutOfFuel => OutOfFuel
  end.

End AlchemyFetcher.

(* ===================================================================== *)
(** ** More sample data *)
(* ===================================================================== *)

Module Samples.

(** A Helius asset with a collection grouping. *)
Definition asset : HeliusAsset.t :=
  {| HeliusAsset.id := "7xKXtg2CW87d97TXJSDpbD5jBkheTqA83TZRuJosgAsU";
     HeliusAsset.content :=
       HeliusAsset.mk_content "https://arweave.net/meta.json"
         (HeliusAsset.mk_metadata "Mad Lad #1" "MAD" None None)
         (Some (HeliusAsset.mk_links (Some "ar://img1") None));
     HeliusAsset.grouping :=
       [HeliusAsset.mk_grouping "collection"
          "J1S9H3QjnRtBbbuD4HjPV6RpRhwuk4zKbxsnCHuTgh9w"];
     HeliusAsset.royalty := HeliusAsset.mk_royalty "creators" None (1 # 20);
     HeliusAsset.creators := [] |}.

(** A second asset, without a grouping. *)
Definition asset2 : HeliusAsset.t :=
  {| HeliusAsset.id := "9vMJfxuKxXBoEa7rM12mYLMwTacLMLDJqHozw96WQL8i";
     HeliusAsset.content :=
       HeliusAsset.mk_content "https://arweave.net/meta2.json"
         (HeliusAsset.mk_metadata "" "" None None) None;
     HeliusAsset.grouping := [];
     HeliusAsset.royalty := HeliusAsset.mk_royalty "creators" None 0;
     HeliusAsset.creators := [] |}.

(** A record whose description names a channel. *)
Definition described : NFT.t :=
  {| NFT.id := "evm:base:0xd:9";
     NFT.walletId := "w1";
     NFT.chain := evm;
     NFT.evmChain := Some base;
     NFT.contractAddress := "0xd";
     NFT.tokenId := "9";
     NFT.name := "#9";
     NFT.description := Some "Farcaster mint, channel: Base-Art";
     NFT.image := "";
     NFT.imageOptimized := None;
     NFT.animationUrl := None;
     NFT.externalUrl := None;
     NFT.collection := NFT.collection Examples.third;
     NFT.metadata := NFT.metadata Examples.third;
     NFT.lastFetched := 5 |}.

(** A custom group with two members. *)
Definition favorites : CustomGroup.t :=
  {| CustomGroup.id := "group_1_a";
     CustomGroup.name := "Favorites";
     CustomGroup.description := None;
     CustomGroup.nftIds := ["a"; "c"];
     CustomGroup.color := "#FF6B6B";
     CustomGroup.icon := None;
     CustomGroup.createdAt := 1;
     CustomGroup.updatedAt := 1 |}.

(** A store with that group and the records of [Examples.one_nft_store]. *)
Definition group_store : Store.t :=
  StoreOps.set_customGroups [favorites] Examples.one_nft_store.

(** A store with one wallet, which is the active one. *)
Definition wallet_store : Store.t :=
  Store.addWallet 1700000000000 "k3j9x0q2a" 1700000000001
                  Examples.wallet_input Store.initial.

(** A clock that advances by one with every reading. *)
Definition ticking (i : nat) : Z := 1700000000000 + Z.of_nat i.



(** An Alchemy provider with two pages: the first request is answered with
    one record and the page key ["k2"], the request for ["k2"] with one
    record and no page key. *)
Definition alchemy_server (req : AlchemyFetcher.request)
    : Http.fetched AlchemyResponse.t :=
  Http.Responded
    (Http.mkResponse true 200 "OK"
       (inr (if (length (AlchemyFetcher.params req) =? 3)%nat
             then AlchemyResponse.mk [Examples.scenario_record] 2 (Some "k2")
             else AlchemyResponse.mk [Examples.scenario_record] 2 None))).

End Samples.

(* ===================================================================== *)
(** * Properties *)
(* ===================================================================== *)

(** ** Strings *)

Section string_facts.

Lemma append_String_l (a : string) (c : ascii) (b : string) :
  String c a +:+ b = String c (a +:+ b).
Proof. reflexivity. Qed.

Lemma split_no_sep (sep : ascii) (s : string) :
  JS.has_char sep s = false -> JS.split sep s = [s].
Proof.
  induction s as [|c s IH]; simpl; [reflexivity|].
  destruct (Ascii.eqb c sep); simpl; [discriminate|].
  intros H. rewrite (IH H). reflexivity.
Qed.

Lemma split_segment (sep : ascii) (a b : string) :
  JS.has_char sep a = false ->
  JS.split sep (a +:+ String sep b) = a :: JS.split sep b.
Proof.
  induction a as [|c a IH]; simpl.
  - intros _. rewrite Ascii.eqb_refl. reflexivity.
  - destruct (Ascii.eqb c sep); simpl; [discriminate|].
    intros H. rewrite (IH H). reflexivity.
Qed.

Lemma lower_char_colon (c : ascii) :
  Ascii.eqb c ":" = false -> Ascii.eqb (JS.lower_char c) ":" = false.
Proof.
  destruct c as [[] [] [] [] [] [] [] []]; vm_compute; congruence.
Qed.

Lemma toLowerCase_no_colon (s : string) :
  JS.has_char ":" s = false -> JS.has_char ":" (JS.toLowerCase s) = false.
Proof.
  induction s as [|c s IH]; simpl; [reflexivity|].
  intros H. apply orb_false_iff in H as [Hc Hs].
  rewrite (lower_char_colon c Hc), (IH Hs). reflexivity.
Qed.

Lemma EVMChain_str_no_colon (e : EVMChain) :
  JS.has_char ":" (EVMChain_str e) = false.
Proof. destruct e; reflexivity. Qed.

End string_facts.

(** ** Normalizer *)

Section normalizer_facts.

Import NFTNormalizer.

(** C6. [normalizeImageUrl] is idempotent on every string: the empty
    string, an [ipfs://] URL, an [ar://] URL and any other string are each
    mapped to a string that [normalizeImageUrl] leaves unchanged. *)
Theorem normalizeImageUrl_idempotent (url : string) :
  normalizeImageUrl (normalizeImageUrl url) = normalizeImageUrl url.
Proof.
  unfold normalizeImageUrl at 2 3.
  destruct (String.eqb url "") eqn:Hempty; [reflexivity|].
  destruct (JS.startsWith "ipfs://" url) eqn:Hipfs; [reflexivity|].
  destruct (JS.startsWith "ar://" url) eqn:Har; [reflexivity|].
  unfold normalizeImageUrl. rewrite Hempty, Hipfs, Har. reflexivity.
Qed.

(** The two rewrites of [normalizeImageUrl], with the prefix dropped. *)
Lemma replace_prefix (p s : string) :
  String.prefix p s = true ->
  JS.replace p "" s = JS.drop (String.length p) s.
Proof. intros H. destruct s; cbn [JS.replace]; rewrite H; reflexivity. Qed.

Lemma normalizeImageUrl_ipfs (hash : string) :
  normalizeImageUrl ("ipfs://" +:+ hash) = "https://ipfs.io/ipfs/" +:+ hash.
Proof. destruct hash; reflexivity. Qed.

Lemma normalizeImageUrl_ar (hash : string) :
  normalizeImageUrl ("ar://" +:+ hash) = "https://arweave.net/" +:+ hash.
Proof. destruct hash; reflexivity. Qed.

(** C7. An Alchemy record with [media: []], [metadata.image: "ipfs://abc"],
    contract address ["0xABC"] and tokenId ["7"], normalized for the chain
    [ethereum], has the id ["evm:ethereum:0xabc:7"] and the image
    ["https://ipfs.io/ipfs/abc"]. *)
Theorem fromAlchemy_scenario (now : Z) (dateGetTime : string -> Z)
    (alchemyNFT : AlchemyNFT.t) (walletId : string) :
  AlchemyNFT.media alchemyNFT = [] ->
  AlchemyNFT.image (AlchemyNFT.metadata alchemyNFT) = Some "ipfs://abc" ->
  AlchemyNFT.address (AlchemyNFT.contract alchemyNFT) = "0xABC" ->
  AlchemyNFT.tokenId alchemyNFT = "7" ->
  NFT.id (fromAlchemy now dateGetTime alchemyNFT walletId ethereum)
    = "evm:ethereum:0xabc:7"
  /\ NFT.image (fromAlchemy now dateGetTime alchemyNFT walletId ethereum)
    = "https://ipfs.io/ipfs/abc".
Proof.
  intros Hmedia Himage Haddr Htoken.
  unfold fromAlchemy; simpl.
  rewrite Hmedia, Himage, Haddr, Htoken. split; reflexivity.
Qed.

Lemma fromAlchemy_scenario_witness :
  NFT.id (fromAlchemy 0 (fun _ => 0) Examples.scenario_record "w1" ethereum)
    = "evm:ethereum:0xabc:7"
  /\ NFT.image (fromAlchemy 0 (fun _ => 0) Examples.scenario_record "w1" ethereum)
    = "https://ipfs.io/ipfs/abc".
Proof.
  apply (fromAlchemy_scenario 0 (fun _ => 0) Examples.scenario_record "w1");
    reflexivity.
Defined.

(** C1, as the code has it. For the chain [evm] with an [evmChain], and a
    contract address and a token id that hold no [':'], [parseId] of
    [generateId] is the tuple (evm, evmChain, lower-cased contract address,
    token id). *)
Theorem generateId_parseId_evm (e : EVMChain) (contractAddress tokenId : string) :
  JS.has_char ":" contractAddress = false ->
  JS.has_char ":" tokenId = false ->
  parseId (generateId evm contractAddress tokenId (Some e))
  = Some {| chain := evm;
            evmChain := Some (EVMChain_str e);
            contractAddress := JS.toLowerCase contractAddress;
            tokenId := tokenId |}.
Proof.
  intros Haddr Htok. unfold parseId.
  change (generateId evm contractAddress tokenId (Some e))
    with ("evm" +:+ String ":" (EVMChain_str e +:+ String ":"
            (JS.toLowerCase contractAddress +:+ String ":" tokenId))).
  rewrite (split_segment ":" "evm") by reflexivity.
  rewrite (split_segment ":" (EVMChain_str e))
    by apply EVMChain_str_no_colon.
  rewrite (split_segment ":" (JS.toLowerCase contractAddress))
    by (apply toLowerCase_no_colon; exact Haddr).
  rewrite (split_no_sep ":" tokenId) by exact Htok.
  reflexivity.
Qed.

Lemma generateId_parseId_evm_witness :
  parseId (generateId evm "0xABC" "7" (Some base))
  = Some {| chain := evm;
            evmChain := Some "base";
            contractAddress := "0xabc";
            tokenId := "7" |}.
Proof.
  apply (generateId_parseId_evm base "0xABC" "7"); reflexivity.
Defined.

(** C1 fails as stated: a token id that holds [':'] adds a segment, and the
    id generated for the chain [solana] has three segments where [parseId]
    accepts two; both are answered with [null]. *)
Lemma generateId_parseId_counterexample :
  parseId (generateId evm "0xABC" "7:1" (Some ethereum)) = None
  /\ parseId (generateId solana "So11111111111111111111111111111111111111112"
                         "So11111111111111111111111111111111111111112" None)
     = None.
Proof. split; reflexivity. Qed.

Lemma split_not_nil (sep : ascii) (s : string) : JS.split sep s <> [].
Proof.
  destruct s as [|c s]; simpl; [discriminate|].
  destruct (Ascii.eqb c sep); [discriminate|].
  destruct (JS.split sep s); discriminate.
Qed.

Lemma split_segments (sep : ascii) (a b : string) :
  length (JS.split sep (a +:+ String sep b))
  = (length (JS.split sep a) + length (JS.split sep b))%nat.
Proof.
  induction a as [|c a IH]; simpl.
  - rewrite Ascii.eqb_refl. reflexivity.
  - destruct (Ascii.eqb c sep); simpl; [rewrite IH; reflexivity|].
    pose proof (split_not_nil sep (a +:+ String sep b)) as H1.
    pose proof (split_not_nil sep a) as H2.
    destruct (JS.split sep (a +:+ String sep b)); [contradiction|].
    destruct (JS.split sep a); [contradiction|].
    simpl in *. exact IH.
Qed.

(** For the chain [solana], [generateId] builds an id of three segments or
    more, which [parseId] answers with [null]. *)
Lemma generateId_parseId_solana (contractAddress tokenId : string)
    (e : option EVMChain) :
  parseId (generateId solana contractAddress tokenId e) = None.
Proof.
  unfold parseId.
  replace (generateId solana contractAddress tokenId e)
    with ("solana" +:+ String ":"
            (JS.toLowerCase contractAddress +:+ String ":" tokenId))
    by (destruct e; reflexivity).
  rewrite (split_segment ":" "solana") by reflexivity.
  cbn [lookup list_lookup default length].
  rewrite split_segments.
  pose proof (split_not_nil ":" (JS.toLowerCase contractAddress)) as H1.
  pose proof (split_not_nil ":" tokenId) as H2.
  destruct (JS.split ":" (JS.toLowerCase contractAddress)); [contradiction|].
  destruct (JS.split ":" tokenId); [contradiction|].
  simpl. rewrite Nat.add_succ_r. reflexivity.
Qed.

(** The id that [fromHelius] builds is of the form [parseId] accepts for
    Solana. *)
Lemma fromHelius_id_parses (now : Z) (a : HeliusAsset.t) (walletId : string) :
  JS.has_char ":" (HeliusAsset.id a) = false ->
  parseId (NFT.id (fromHelius now a walletId))
  = Some {| chain := solana;
            evmChain := None;
            contractAddress := HeliusAsset.id a;
            tokenId := HeliusAsset.id a |}.
Proof.
  intros H. unfold parseId, fromHelius; simpl NFT.id.
  change ("solana:" +:+ ?r) with ("solana" +:+ String ":" r).
  rewrite (split_segment ":" "solana") by reflexivity.
  rewrite (split_no_sep ":" _ H). reflexivity.
Qed.

End normalizer_facts.

(** ** Substring tests *)

Section includes_facts.

Import Signals.

Lemma prefix_iff (p s : string) :
  String.prefix p s = true <-> exists post : string, s = p +:+ post.
Proof.
  revert s. induction p as [|a p IH]; intros s.
  - split; [intros _; exists s; reflexivity | intros _; destruct s; reflexivity].
  - destruct s as [|c s]; simpl.
    + split; [discriminate | intros [post H]; discriminate].
    + destruct (ascii_dec a c) as [->|Hne].
      * rewrite IH. split; intros [post H]; exists post.
        -- rewrite H; reflexivity.
        -- injection H as H; exact H.
      * split; [discriminate | intros [post H]; injection H as H1 H2; congruence].
Qed.

Lemma includes_nil (p : string) :
  JS.includes p "" = String.prefix p "" || false.
Proof. reflexivity. Qed.

Lemma includes_cons (p : string) (c : ascii) (s : string) :
  JS.includes p (String c s) = String.prefix p (String c s) || JS.includes p s.
Proof. reflexivity. Qed.

Lemma includes_iff (p s : string) :
  JS.includes p s = true <-> contains p s.
Proof.
  unfold contains. split.
  - induction s as [|c s IH];
      [rewrite includes_nil | rewrite includes_cons]; rewrite orb_true_iff.
    + intros [H|H]; [|discriminate].
      apply prefix_iff in H as [post H]. exists "", post. exact H.
    + intros [H|H].
      * apply prefix_iff in H as [post H]. exists "", post. exact H.
      * destruct (IH H) as (pre & post & ->).
        exists (String c pre), post. reflexivity.
  - intros (pre & post & ->).
    induction pre as [|c pre IH].
    + assert (H : String.prefix p ("" +:+ p +:+ post) = true)
        by (apply prefix_iff; exists post; reflexivity).
      destruct ("" +:+ p +:+ post);
        [rewrite includes_nil | rewrite includes_cons]; rewrite H;
        reflexivity.
    + rewrite append_String_l, includes_cons, IH. apply orb_true_r.
Qed.

Lemma contains_empty (kw : string) : contains kw "" -> kw = "".
Proof.
  intros (pre & post & H). destruct pre; [|discriminate].
  destruct kw; [reflexivity | discriminate].
Qed.

Lemma keyword_scan (text : string) :
  existsb (fun keyword => JS.includes keyword (JS.toLowerCase text))
          FarcasterDetector.FARCASTER_KEYWORDS = true
  <-> mentions_keyword text.
Proof.
  unfold mentions_keyword. rewrite existsb_exists.
  split; intros (kw & Hin & H); exists kw; (split; [exact Hin|]);
    apply includes_iff; exact H.
Qed.

Lemma no_keyword_in_empty : ~ mentions_keyword "".
Proof.
  intros (kw & Hin & H). apply contains_empty in H. subst kw.
  simpl in Hin. repeat (destruct Hin as [Hin|Hin]; [discriminate|]).
  exact Hin.
Qed.

Lemma hasKeywords_iff (text : option string) :
  FarcasterDetector.hasKeywords text = true
  <-> exists t : string, text = Some t /\ mentions_keyword t.
Proof.
  destruct text as [t|]; unfold FarcasterDetector.hasKeywords.
  - destruct (String.eqb_spec t "") as [->|Hne].
    + split; [discriminate|].
      intros (t & [= <-] & H). destruct (no_keyword_in_empty H).
    + rewrite keyword_scan. split.
      * intros H. exists t. split; [reflexivity | exact H].
      * intros (t' & [= <-] & H). exact H.
  - split; [discriminate | intros (t & H & _); discriminate].
Qed.

Lemma hasAttributeKeywords_iff (attributes : option (list NFTAttribute.t)) :
  FarcasterDetector.hasAttributeKeywords attributes = true
  <-> exists (attrs : list NFTAttribute.t) (attr : NFTAttribute.t),
        attributes = Some attrs /\ In attr attrs
        /\ (mentions_keyword (NFTAttribute.trait_type attr)
            \/ mentions_keyword (String_of (NFTAttribute.value attr))).
Proof.
  destruct attributes as [attrs|]; unfold FarcasterDetector.hasAttributeKeywords.
  - rewrite existsb_exists. split.
    + intros (attr & Hin & H). exists attrs, attr.
      apply orb_true_iff in H. rewrite !keyword_scan in H. auto.
    + intros (attrs' & attr & [= <-] & Hin & H). exists attr.
      split; [exact Hin|]. apply orb_true_iff. rewrite !keyword_scan.
      exact H.
  - split; [discriminate | intros (? & ? & H & _); discriminate].
Qed.

Lemma isFarcasterUrl_iff (url : option string) :
  FarcasterDetector.isFarcasterUrl url = true
  <-> exists u domain : string,
        url = Some u /\ In domain FARCASTER_DOMAINS
        /\ contains domain (JS.toLowerCase u).
Proof.
  destruct url as [u|]; unfold FarcasterDetector.isFarcasterUrl.
  - destruct (String.eqb_spec u "") as [->|Hne].
    + split; [discriminate|].
      intros (u & domain & [= <-] & Hin & H). simpl in H.
      apply contains_empty in H. subst domain. simpl in Hin.
      repeat (destruct Hin as [Hin|Hin]; [discriminate|]). destruct Hin.
    + rewrite !orb_true_iff, !includes_iff. split.
      * intros [[H|H]|H]; exists u;
          [exists "farcaster.xyz" | exists "warpcast.com"
           | exists "supercast.xyz"];
          (split; [reflexivity|]); (split; [simpl; auto | exact H]).
      * intros (u' & domain & [= <-] & Hin & H). simpl in Hin.
        destruct Hin as [<-|[<-|[<-|[]]]]; auto.
  - split; [discriminate | intros (? & ? & H & _); discriminate].
Qed.

Lemma allow_list_iff (a : string) :
  JSSet.has a FarcasterDetector.FARCASTER_CONTRACTS = true
  <-> In a FarcasterDetector.FARCASTER_CONTRACTS.
Proof.
  unfold JSSet.has. rewrite existsb_exists. split.
  - intros (x & Hin & H). apply String.eqb_eq in H. subst x. exact Hin.
  - intros H. exists a. split; [exact H | apply String.eqb_refl].
Qed.

End includes_facts.

(** ** Detector *)

Section detector_facts.

Import FarcasterDetector Signals.

(** C3. [isFarcasterMint] answers [true] exactly when one of the five
    signals holds: the allow-list, a keyword in the description, a keyword
    in an attribute, a Farcaster domain in the external URL, a keyword in
    the collection name or description (all matches ignore case). The
    chain is no signal: moving the record to any chain, the Base chain
    included, leaves the answer as it is. *)
Theorem isFarcasterMint_signals (nft : NFT.t) :
  (isFarcasterMint nft = true
   <-> allow_listed nft \/ description_keyword nft \/ attribute_keyword nft
       \/ farcaster_url nft \/ collection_keyword nft)
  /\ (forall (chain : ChainType) (evmChain : option EVMChain),
        isFarcasterMint (on_chain chain evmChain nft) = isFarcasterMint nft).
Proof.
  split; [|reflexivity].
  unfold allow_listed, description_keyword, attribute_keyword, farcaster_url,
    collection_keyword.
  rewrite <- allow_list_iff, <- hasKeywords_iff, <- hasAttributeKeywords_iff,
    <- isFarcasterUrl_iff.
  assert (Hname : mentions_keyword (NFTCollection.name (NFT.collection nft))
                  <-> hasKeywords (Some (NFTCollection.name (NFT.collection nft)))
                      = true).
  { rewrite hasKeywords_iff. split.
    - intros H. eexists. split; [reflexivity | exact H].
    - intros (t & [= <-] & H). exact H. }
  rewrite Hname, <- hasKeywords_iff. unfold isFarcasterMint.
  destruct (JSSet.has _ FARCASTER_CONTRACTS); [tauto|].
  destruct (hasKeywords (NFT.description nft)); [tauto|].
  destruct (hasAttributeKeywords _); [tauto|].
  destruct (isFarcasterUrl _); [tauto|].
  destruct (hasKeywords (Some _)); [simpl; tauto|].
  destruct (hasKeywords (NFTCollection.description _)); simpl;
    intuition discriminate.
Qed.

(** C9. [enrichNFT] keeps every field but [metadata.isFarcasterMint] and
    [metadata.farcasterChannel]. *)
Theorem enrichNFT_frame (nft : NFT.t) :
  NFT.id (enrichNFT nft) = NFT.id nft
  /\ NFT.walletId (enrichNFT nft) = NFT.walletId nft
  /\ NFT.chain (enrichNFT nft) = NFT.chain nft
  /\ NFT.evmChain (enrichNFT nft) = NFT.evmChain nft
  /\ NFT.contractAddress (enrichNFT nft) = NFT.contractAddress nft
  /\ NFT.tokenId (enrichNFT nft) = NFT.tokenId nft
  /\ NFT.name (enrichNFT nft) = NFT.name nft
  /\ NFT.description (enrichNFT nft) = NFT.description nft
  /\ NFT.image (enrichNFT nft) = NFT.image nft
  /\ NFT.imageOptimized (enrichNFT nft) = NFT.imageOptimized nft
  /\ NFT.animationUrl (enrichNFT nft) = NFT.animationUrl nft
  /\ NFT.externalUrl (enrichNFT nft) = NFT.externalUrl nft
  /\ NFT.collection (enrichNFT nft) = NFT.collection nft
  /\ NFT.lastFetched (enrichNFT nft) = NFT.lastFetched nft
  /\ NFTMetadata.attributes (NFT.metadata (enrichNFT nft))
     = NFTMetadata.attributes (NFT.metadata nft)
  /\ NFTMetadata.mintedAt (NFT.metadata (enrichNFT nft))
     = NFTMetadata.mintedAt (NFT.metadata nft)
  /\ NFTMetadata.creator (NFT.metadata (enrichNFT nft))
     = NFTMetadata.creator (NFT.metadata nft)
  /\ NFTMetadata.royalties (NFT.metadata (enrichNFT nft))
     = NFTMetadata.royalties (NFT.metadata nft).
Proof. repeat split. Qed.

(** What [enrichNFT] writes into the two fields it sets. *)
Lemma enrichNFT_sets (nft : NFT.t) :
  NFTMetadata.isFarcasterMint (NFT.metadata (enrichNFT nft))
    = isFarcasterMint nft
  /\ NFTMetadata.farcasterChannel (NFT.metadata (enrichNFT nft))
    = (if isFarcasterMint nft then extractChannel nft else None).
Proof. split; reflexivity. Qed.

End detector_facts.

(** ** [Array.prototype.sort] *)

Section sort_facts.

Context {A : Type} (le : A -> A -> bool).

Lemma insert_Permutation (x : A) (l : list A) :
  Permutation (JSArray.insert le x l) (x :: l).
Proof.
  induction l as [|y l IH]; simpl; [reflexivity|].
  destruct (le x y); [reflexivity|].
  rewrite IH. apply perm_swap.
Qed.

Lemma sort_Permutation (l : list A) : Permutation (JSArray.sort le l) l.
Proof.
  induction l as [|x l IH]; simpl; [reflexivity|].
  rewrite insert_Permutation. apply perm_skip, IH.
Qed.

Hypothesis le_total : forall a b : A, le a b = true \/ le b a = true.

Lemma insert_HdRel (a x : A) (l : list A) :
  le a x = true ->
  HdRel (fun u v => le u v = true) a l ->
  HdRel (fun u v => le u v = true) a (JSArray.insert le x l).
Proof.
  intros Hax Hl. destruct l as [|y l]; simpl.
  - constructor. exact Hax.
  - destruct (le x y); constructor; [exact Hax|].
    inversion Hl; assumption.
Qed.

Lemma insert_Sorted (x : A) (l : list A) :
  Sorted (fun u v => le u v = true) l ->
  Sorted (fun u v => le u v = true) (JSArray.insert le x l).
Proof.
  induction 1 as [|y l Hs IH Hd]; simpl.
  - repeat constructor.
  - destruct (le x y) eqn:Hxy.
    + constructor; [constructor; assumption | constructor; exact Hxy].
    + constructor; [exact IH|].
      apply insert_HdRel; [|exact Hd].
      destruct (le_total x y) as [H|H]; [congruence | exact H].
Qed.

Lemma sort_Sorted (l : list A) :
  Sorted (fun u v => le u v = true) (JSArray.sort le l).
Proof.
  induction l as [|x l IH]; simpl; [constructor|].
  apply insert_Sorted, IH.
Qed.

End sort_facts.

(** ** The order of strings by code units *)

Section string_order.

Lemma leb_trans (a b c : string) :
  String.leb a b = true -> String.leb b c = true -> String.leb a c = true.
Proof.
  intros H1 H2. apply Is_true_true.
  apply Is_true_true in H1, H2.
  exact (transitivity (R := String.le) H1 H2).
Qed.

Lemma compare_refl (a : string) : String.compare a a = Eq.
Proof.
  pose proof (String.compare_antisym a a) as H.
  destruct (String.compare a a); [reflexivity | discriminate | discriminate].
Qed.

Lemma ltb_iff (a b : string) :
  String.ltb a b = true <-> String.leb a b = true /\ a <> b.
Proof.
  unfold String.ltb, String.leb.
  destruct (String.compare a b) eqn:Hc.
  - split; [discriminate|]. intros [_ H]. exfalso.
    apply H, String.compare_eq_iff, Hc.
  - split; [|reflexivity]. intros _. split; [reflexivity|].
    intros ->. rewrite compare_refl in Hc. discriminate.
  - split; [discriminate|]. intros [H _]. discriminate.
Qed.

Lemma strictly_sorted (l : list string) :
  StronglySorted (fun u v => String.leb u v = true) l ->
  NoDup l ->
  StronglySorted Signals.code_unit_lt l.
Proof.
  induction 1 as [|x l Hs IH Hall]; intros Hnd; constructor.
  - apply IH. inversion Hnd; assumption.
  - apply Forall_forall. intros y Hy. apply ltb_iff. split.
    + rewrite Forall_forall in Hall. apply Hall, Hy.
    + intros ->. inversion Hnd; contradiction.
Qed.

End string_order.

(** ** [getChannels] *)

Section channel_facts.

Import FarcasterDetector Signals.

Lemma JSSet_has_iff (x : string) (s : JSSet.t) :
  JSSet.has x s = true <-> In x s.
Proof.
  unfold JSSet.has. rewrite existsb_exists. split.
  - intros (y & Hin & H). apply String.eqb_eq in H. subst y. exact Hin.
  - intros H. exists x. split; [exact H | apply String.eqb_refl].
Qed.

Lemma JSSet_add_In (x c : string) (s : JSSet.t) :
  In c (JSSet.add x s) <-> c = x \/ In c s.
Proof.
  unfold JSSet.add. destruct (JSSet.has x s) eqn:H.
  - apply JSSet_has_iff in H. split; [auto | intros [->|]; assumption].
  - rewrite in_app_iff. simpl. split; [intros [?|[?|[]]]; auto | intros [?|?]; auto].
Qed.

Lemma JSSet_add_NoDup (x : string) (s : JSSet.t) :
  NoDup s -> NoDup (JSSet.add x s).
Proof.
  intros Hnd. unfold JSSet.add. destruct (JSSet.has x s) eqn:H; [exact Hnd|].
  apply NoDup_app; repeat split.
  - exact Hnd.
  - intros y Hy Hy'. apply list_elem_of_In in Hy'. simpl in Hy'.
    destruct Hy' as [<-|[]].
    apply list_elem_of_In, JSSet_has_iff in Hy. congruence.
  - apply NoDup_singleton.
Qed.

Lemma truthy_Some (o : option string) (c : string) :
  JS.truthy o = true /\ default "" o = c <-> c <> "" /\ o = Some c.
Proof.
  destruct o as [d|]; simpl.
  - destruct (String.eqb_spec d ""); simpl; split.
    + intros [H _]; discriminate.
    + intros [H [= ->]]. contradiction.
    + intros [_ <-]. auto.
    + intros [_ [= ->]]. auto.
  - split; [intros [H _]; discriminate | intros [_ H]; discriminate].
Qed.

Lemma collect_fold (l : list NFT.t) (acc : JSSet.t) :
  NoDup acc ->
  NoDup (foldl collect acc l)
  /\ forall c : string,
       In c (foldl collect acc l)
       <-> In c acc
           \/ (c <> ""
               /\ exists nft : NFT.t,
                    In nft l
                    /\ NFTMetadata.farcasterChannel (NFT.metadata nft) = Some c).
Proof.
  revert acc. induction l as [|nft l IH]; intros acc Hnd; simpl.
  - split; [exact Hnd|]. intros c. split; [auto|].
    intros [H|(_ & n & Hn & _)]; [exact H | destruct Hn].
  - assert (Hnd' : NoDup (collect acc nft)).
    { unfold collect. destruct (JS.truthy _); [apply JSSet_add_NoDup|]; exact Hnd. }
    destruct (IH _ Hnd') as [H1 H2]. split; [exact H1|].
    intros c. rewrite H2. clear H1 H2 IH.
    assert (Hstep : In c (collect acc nft)
                    <-> In c acc
                        \/ (c <> ""
                            /\ NFTMetadata.farcasterChannel (NFT.metadata nft)
                               = Some c)).
    { unfold collect.
      pose proof (truthy_Some
                    (NFTMetadata.farcasterChannel (NFT.metadata nft)) c) as Ht.
      destruct (JS.truthy _).
      - rewrite JSSet_add_In. split.
        + intros [->|H]; [right; apply Ht; auto | auto].
        + intros [H|H]; [auto | left; symmetry; apply Ht, H].
      - split; [auto|]. intros [H|H]; [exact H|].
        apply Ht in H as [H _]. discriminate. }
    rewrite Hstep. split.
    + intros [[H|[Hc H]]|[Hc (n & Hin & H)]]; eauto 7.
    + intros [H|[Hc (n & [<-|Hin] & H)]]; eauto 7.
Qed.

(** C5, as the code has it. [getChannels] returns the non-empty channel
    names of the elements that are flagged as Farcaster mints, each name
    once, in strictly ascending order of code units. *)
Theorem getChannels_flagged (nfts : list NFT.t) :
  StronglySorted code_unit_lt (getChannels nfts)
  /\ NoDup (getChannels nfts)
  /\ forall c : string,
       In c (getChannels nfts) <-> c <> "" /\ flagged_channel nfts c.
Proof.
  unfold getChannels.
  set (flagged := List.filter _ nfts).
  destruct (collect_fold flagged [] ltac:(constructor)) as [Hnd Hin].
  assert (Hnd' : NoDup (JSArray.sort String.leb (foldl collect [] flagged))).
  { rewrite sort_Permutation. exact Hnd. }
  split; [|split; [exact Hnd'|]].
  - apply strictly_sorted; [|exact Hnd'].
    apply Sorted_StronglySorted.
    + intros a b c. apply leb_trans.
    + apply sort_Sorted. apply String.leb_total.
  - intros c.
    assert (Hperm : In c (JSArray.sort String.leb (foldl collect [] flagged))
                    <-> In c (foldl collect [] flagged)).
    { split; apply Permutation_in;
        [|symmetry]; apply sort_Permutation. }
    rewrite Hperm, Hin. unfold flagged_channel, flagged. split.
    + intros [[]|[Hc (n & Hn & H)]]. split; [exact Hc|].
      apply filter_In in Hn as [Hn Hf]. eauto.
    + intros [Hc (n & Hn & Hf & H)]. right. split; [exact Hc|].
      exists n. split; [|exact H]. apply filter_In. auto.
Qed.

(** C5 fails as stated: a channel carried by an element that is not
    flagged as a Farcaster mint occurs in the list and is not returned. *)
Lemma getChannels_counterexample :
  listed_channel [Examples.unflagged] "art"
  /\ "art" <> ""
  /\ ~ In "art" (getChannels [Examples.unflagged]).
Proof.
  split; [|split].
  - exists Examples.unflagged. split; [left; reflexivity | reflexivity].
  - discriminate.
  - intros [].
Qed.

End channel_facts.

(** ** Grid: the ['collection'] mode *)

Section grid_facts.

Import Grid.

Lemma group_step_push_to (m : JSMap.t (list NFT.t)) (nft : NFT.t) :
  group_step m nft
  = push_to (NFTCollection.address (NFT.collection nft)) nft m.
Proof.
  unfold group_step.
  generalize (NFTCollection.address (NFT.collection nft)) as key. intros key.
  induction m as [|[k g] m IH].
  - simpl. rewrite String.eqb_refl. simpl. rewrite ?String.eqb_refl. reflexivity.
  - unfold JSMap.has in *. simpl.
    destruct (String.eqb key k) eqn:Hk.
    + simpl. rewrite Hk. reflexivity.
    + destruct (JSMap.get key m) eqn:Hget; simpl; rewrite Hk;
        simpl in IH; rewrite IH; reflexivity.
Qed.

Lemma push_to_grouped (nft : NFT.t) (m : JSMap.t (list NFT.t)) :
  grouped m ->
  grouped (push_to (NFTCollection.address (NFT.collection nft)) nft m).
Proof.
  unfold grouped.
  induction 1 as [|[k g] m [Hne Hall] Hm IH]; simpl.
  - constructor; [|constructor]. simpl. split; [discriminate|].
    constructor; [reflexivity | constructor].
  - destruct (String.eqb_spec (NFTCollection.address (NFT.collection nft)) k)
      as [Heq|Hne'].
    + constructor; [|exact Hm]. simpl in *. split.
      * intros H. apply app_eq_nil in H as [_ H]. discriminate.
      * apply Forall_app. split.
        -- rewrite Heq. exact Hall.
        -- repeat constructor.
    + constructor; [split; assumption | exact IH].
Qed.

Lemma push_to_length (key : string) (nft : NFT.t) (m : JSMap.t (list NFT.t)) :
  length (concat (map snd (push_to key nft m)))
  = S (length (concat (map snd m))).
Proof.
  induction m as [|[k g] m IH]; simpl; [reflexivity|].
  destruct (String.eqb key k); simpl.
  - rewrite !length_app. simpl. lia.
  - rewrite !length_app, IH. lia.
Qed.

Lemma group_fold (nfts : list NFT.t) (m : JSMap.t (list NFT.t)) :
  grouped m ->
  grouped (foldl group_step m nfts)
  /\ length (concat (map snd (foldl group_step m nfts)))
     = (length (concat (map snd m)) + length nfts)%nat.
Proof.
  revert m. induction nfts as [|nft nfts IH]; intros m Hm; simpl.
  - split; [exact Hm | lia].
  - rewrite group_step_push_to.
    destruct (IH _ (push_to_grouped nft m Hm)) as [H1 H2].
    split; [exact H1|]. rewrite H2, push_to_length. lia.
Qed.

Lemma concat_length_Permutation (gs gs' : list (list NFT.t)) :
  Permutation gs gs' -> length (concat gs) = length (concat gs').
Proof.
  induction 1; simpl; rewrite ?length_app; lia.
Qed.

Lemma header_total_cards (g : list NFT.t) (rows : list row) :
  header_total (map Card g ++ rows) = header_total rows.
Proof. induction g; simpl; auto. Qed.

Lemma header_total_sections (gs : list (list NFT.t)) :
  header_total (concat (map section gs)) = Z.of_nat (length (concat gs)).
Proof.
  induction gs as [|g gs IH]; simpl; [reflexivity|].
  rewrite header_total_cards, IH, length_app. lia.
Qed.

Lemma cards_split (g : list NFT.t) (pre : list row) (h : SectionHeader.t)
    (tl rows : list row) :
  pre ++ Header h :: tl = map Card g ++ rows ->
  exists pre' : list row,
    pre = map Card g ++ pre' /\ pre' ++ Header h :: tl = rows.
Proof.
  revert pre. induction g as [|x g IH]; intros pre; simpl.
  - intros H. exists pre. split; [reflexivity | exact H].
  - destruct pre as [|r pre]; simpl; [discriminate|].
    intros [= -> H]. destruct (IH _ H) as (pre' & -> & H').
    exists pre'. split; [reflexivity | exact H'].
Qed.

Lemma cards_prefix (mem g : list NFT.t) (post rows : list row) :
  (rows = [] \/ exists h t, rows = Header h :: t) ->
  map Card mem ++ post = map Card g ++ rows ->
  exists rest : list NFT.t, g = mem ++ rest.
Proof.
  intros Hrows. revert g. induction mem as [|x mem IH]; intros g; simpl.
  - intros _. exists g. reflexivity.
  - destruct g as [|y g]; simpl.
    + destruct Hrows as [->|(h & t & ->)]; discriminate.
    + intros [= -> H]. destruct (IH _ H) as [rest ->].
      exists rest. reflexivity.
Qed.

Lemma sections_start (gs : list (list NFT.t)) :
  concat (map section gs) = []
  \/ exists h t, concat (map section gs) = Header h :: t.
Proof. destruct gs; simpl; eauto. Qed.

Lemma section_lookup (gs : list (list NFT.t)) (pre : list row)
    (h : SectionHeader.t) (mem : list NFT.t) (post : list row) :
  concat (map section gs) = pre ++ Header h :: map Card mem ++ post ->
  exists g rest : list NFT.t,
    In g gs /\ SectionHeader.title h = first_name g /\ g = mem ++ rest.
Proof.
  revert pre. induction gs as [|g gs IH]; intros pre; simpl.
  - destruct pre; discriminate.
  - destruct pre as [|r pre]; simpl.
    + intros [= <- H]. symmetry in H.
      destruct (cards_prefix _ _ _ _ (sections_start gs) H) as [rest Hg].
      exists g, rest. auto.
    + intros [= <- H]. symmetry in H.
      destruct (cards_split _ _ _ _ _ H) as (pre' & _ & H').
      symmetry in H'. destruct (IH _ H') as (g' & rest & Hin & Ht & Hg).
      exists g', rest. auto.
Qed.

(** C4, as the code has it. In the display list of the ['collection'] mode
    the counts of the headers add up to the length of the input; the title
    of a header is the collection name of the first card after it, and every
    card up to the next header has the collection address of that first
    card. *)
Theorem arrange_collection (localeCompare : string -> string -> Z)
    (nfts : list NFT.t) :
  header_total (groupAndSortNFTs localeCompare nfts collection)
  = Z.of_nat (length nfts)
  /\ titled_by_first (groupAndSortNFTs localeCompare nfts collection).
Proof.
  unfold groupAndSortNFTs, JSMap.entries.
  set (le := fun a b : string * list NFT.t => _).
  pose proof (sort_Permutation le (foldl group_step [] nfts)) as Hperm.
  destruct (group_fold nfts [] ltac:(constructor)) as [Hgrouped Hlen].
  rewrite <- (map_map snd section).
  split.
  - rewrite header_total_sections.
    rewrite (concat_length_Permutation _ _ (Permutation_map snd Hperm)).
    rewrite Hlen. reflexivity.
  - intros pre h first mem post Hrows.
    apply section_lookup in Hrows as (g & rest & Hin & Ht & Hg).
    apply in_map_iff in Hin as ([k g'] & <- & Hin). simpl in *.
    apply (Permutation_in _ Hperm) in Hin.
    unfold grouped in Hgrouped. rewrite Forall_forall in Hgrouped.
    destruct (Hgrouped _ (proj2 (list_elem_of_In _ _) Hin)) as [_ Hall].
    simpl in Hall. subst g'. split.
    + rewrite Ht. reflexivity.
    + inversion Hall as [|? ? Hfirst Hrest]; subst.
      apply Forall_app in Hrest as [Hmem _].
      eapply Forall_impl; [exact Hmem|].
      simpl. intros x Hx. congruence.
Qed.

Lemma push_to_members (key : string) (nft : NFT.t)
    (m : JSMap.t (list NFT.t)) (P : NFT.t -> Prop) :
  P nft ->
  Forall (fun e => Forall P (snd e)) m ->
  Forall (fun e => Forall P (snd e)) (push_to key nft m).
Proof.
  intros Hnft. induction 1 as [|[k g] m Hg Hm IH]; simpl.
  - repeat constructor. exact Hnft.
  - destruct (String.eqb key k); constructor; simpl in *; auto.
    apply Forall_app. split; [exact Hg | repeat constructor; exact Hnft].
Qed.

Lemma group_fold_members (nfts : list NFT.t) (m : JSMap.t (list NFT.t))
    (P : NFT.t -> Prop) :
  Forall P nfts ->
  Forall (fun e => Forall P (snd e)) m ->
  Forall (fun e => Forall P (snd e)) (foldl group_step m nfts).
Proof.
  intros Hl. revert m. induction Hl as [|nft nfts Hnft Hl IH]; intros m Hm; simpl.
  - exact Hm.
  - apply IH. rewrite group_step_push_to. apply push_to_members; assumption.
Qed.

(** The sentence of the specification holds for the lists in which the
    collection address decides the collection name. *)
Lemma arrange_collection_named (localeCompare : string -> string -> Z)
    (nfts : list NFT.t) :
  (forall a b : NFT.t,
     In a nfts -> In b nfts ->
     NFTCollection.address (NFT.collection a)
     = NFTCollection.address (NFT.collection b) ->
     NFTCollection.name (NFT.collection a)
     = NFTCollection.name (NFT.collection b)) ->
  titled_by_name (groupAndSortNFTs localeCompare nfts collection).
Proof.
  intros Hname pre h mem post Hrows.
  unfold groupAndSortNFTs, JSMap.entries in Hrows.
  set (le := fun a b : string * list NFT.t => _) in Hrows.
  pose proof (sort_Permutation le (foldl group_step [] nfts)) as Hperm.
  destruct (group_fold nfts [] ltac:(constructor)) as [Hgrouped _].
  assert (Hmembers : Forall (fun e => Forall (fun x => In x nfts) (snd e))
                            (foldl group_step [] nfts)).
  { apply group_fold_members; [|constructor].
    apply Forall_forall. intros x Hx. apply list_elem_of_In, Hx. }
  rewrite <- (map_map snd section) in Hrows.
  apply section_lookup in Hrows as (g & rest & Hin & Ht & Hg).
  apply in_map_iff in Hin as ([k g'] & <- & Hin). simpl in *.
  apply (Permutation_in _ Hperm) in Hin.
  apply list_elem_of_In in Hin.
  unfold grouped in Hgrouped. rewrite Forall_forall in Hgrouped, Hmembers.
  destruct (Hgrouped _ Hin) as [Hne Hall].
  specialize (Hmembers _ Hin). simpl in *. subst g'.
  destruct mem as [|first mem]; [constructor|].
  rewrite Ht. unfold first_name. simpl.
  rewrite Forall_forall in Hall, Hmembers.
  apply Forall_forall. intros x Hx.
  assert (Hx' : x ∈ (first :: mem) ++ rest)
    by (apply elem_of_app; left; exact Hx).
  assert (Hf : first ∈ (first :: mem) ++ rest) by (simpl; left).
  apply Hname; [apply Hmembers, Hx' | apply Hmembers, Hf|].
  rewrite (Hall _ Hx'), (Hall _ Hf). reflexivity.
Qed.

(** C4 fails as stated: two records of one contract address with different
    collection names share a section, whose title is the name of the first
    of them. *)
Lemma arrange_collection_counterexample :
  ~ titled_by_name
      (groupAndSortNFTs Examples.codeUnitCompare
                        [Examples.alpha; Examples.beta] collection).
Proof.
  intros H.
  specialize (H [] (SectionHeader.mk "Alpha" (Some 2))
                [Examples.alpha; Examples.beta] [] eq_refl).
  inversion H as [|? ? _ H']; subst.
  inversion H' as [|? ? Hbeta _]; subst.
  discriminate Hbeta.
Qed.

End grid_facts.

(** ** Store *)

Section store_facts.

Import Store Frame.

Lemma values_In (m : gmap string NFT.t) (nft : NFT.t) :
  In nft (map snd (map_to_list m)) <-> exists k, m !! k = Some nft.
Proof.
  rewrite in_map_iff. split.
  - intros ([k x] & <- & H). exists k.
    apply elem_of_map_to_list, list_elem_of_In, H.
  - intros [k H]. exists (k, nft). split; [reflexivity|].
    apply list_elem_of_In, elem_of_map_to_list, H.
Qed.

Lemma fold_delete_lookup (l : list NFT.t) (m : gmap string NFT.t)
    (k : string) (r : NFT.t) :
  foldl (fun acc nft => delete (NFT.id nft) acc) m l !! k = Some r
  <-> m !! k = Some r /\ ~ In k (map NFT.id l).
Proof.
  revert m. induction l as [|x l IH]; intros m; simpl.
  - tauto.
  - rewrite IH, lookup_delete_Some. intuition congruence.
Qed.

(** Removal never adds or changes an entry. *)
Lemma delete_wallet_nfts_sub (walletId : string) (m : gmap string NFT.t)
    (k : string) (r : NFT.t) :
  delete_wallet_nfts walletId m !! k = Some r -> m !! k = Some r.
Proof. unfold delete_wallet_nfts. rewrite fold_delete_lookup. tauto. Qed.

(** On a map that stores every record under its id, removal leaves exactly
    the records of the other wallets. *)
Lemma delete_wallet_nfts_lookup (walletId : string) (m : gmap string NFT.t)
    (k : string) (r : NFT.t) :
  keyed m ->
  delete_wallet_nfts walletId m !! k = Some r
  <-> m !! k = Some r /\ NFT.walletId r <> walletId.
Proof.
  intros Hkeyed. unfold delete_wallet_nfts. rewrite fold_delete_lookup.
  split; intros [Hk H]; (split; [exact Hk|]).
  - intros Hw. apply H. apply in_map_iff. exists r. split.
    + exact (Hkeyed _ _ Hk).
    + apply filter_In. split.
      * apply values_In. exists k. exact Hk.
      * apply String.eqb_eq, Hw.
  - intros Hin. apply in_map_iff in Hin as (x & Hid & Hx).
    apply filter_In in Hx as [Hx Hw]. apply String.eqb_eq in Hw.
    apply values_In in Hx as [k' Hk'].
    pose proof (Hkeyed _ _ Hk') as Hid'. simpl in Hid'.
    assert (k' = k) by congruence. subst k'.
    assert (x = r) by congruence. subst x. contradiction.
Qed.

Lemma delete_wallet_nfts_keyed (walletId : string) (m : gmap string NFT.t) :
  keyed m -> keyed (delete_wallet_nfts walletId m).
Proof.
  intros Hkeyed k r H. apply (Hkeyed k r), (delete_wallet_nfts_sub _ _ _ _ H).
Qed.

Lemma add_nft_fst (acc : gmap string NFT.t * gmap string Collection.t)
    (nft : NFT.t) :
  fst (add_nft acc nft) = <[NFT.id nft := nft]> (fst acc).
Proof. unfold add_nft. destruct (snd acc !! collectionId nft); reflexivity. Qed.

Lemma add_nft_fold_keyed (l : list NFT.t)
    (acc : gmap string NFT.t * gmap string Collection.t) :
  keyed (fst acc) -> keyed (fst (foldl add_nft acc l)).
Proof.
  revert acc. induction l as [|x l IH]; intros acc H; simpl; [exact H|].
  apply IH. rewrite add_nft_fst. apply map_Forall_insert_2; [reflexivity | exact H].
Qed.

(** [setNFTs] keeps every record under its id. *)
Lemma setNFTs_keyed (walletId : string) (l : list NFT.t) (s : Store.t) :
  keyed (nfts s) -> keyed (nfts (setNFTs walletId l s)).
Proof.
  intros H. unfold setNFTs. simpl.
  apply add_nft_fold_keyed. simpl. apply delete_wallet_nfts_keyed, H.
Qed.

Lemma add_nft_count (acc : gmap string NFT.t * gmap string Collection.t)
    (nft : NFT.t) (cid : string) :
  nftCount_of (snd (add_nft acc nft)) cid
  = nftCount_of (snd acc) cid
    + (if String.eqb (collectionId nft) cid then 1 else 0).
Proof.
  unfold add_nft, nftCount_of.
  destruct (String.eqb_spec (collectionId nft) cid) as [<-|Hne].
  - destruct (snd acc !! collectionId nft) eqn:H; simpl;
      rewrite lookup_insert_eq; simpl; lia.
  - destruct (snd acc !! collectionId nft) eqn:H; simpl;
      rewrite lookup_insert_ne by exact Hne; lia.
Qed.

Lemma add_nft_fold_count (l : list NFT.t)
    (acc : gmap string NFT.t * gmap string Collection.t) (cid : string) :
  nftCount_of (snd (foldl add_nft acc l)) cid
  = nftCount_of (snd acc) cid + sightings cid l.
Proof.
  unfold sightings.
  revert acc. induction l as [|x l IH]; intros acc; simpl; [lia|].
  rewrite IH, add_nft_count.
  destruct (String.eqb (collectionId x) cid); simpl length; lia.
Qed.

Lemma filter_none {A : Type} (f : A -> bool) (l : list A) :
  (forall x, In x l -> f x = false) -> List.filter f l = [].
Proof.
  induction l as [|x l IH]; intros H; simpl; [reflexivity|].
  rewrite (H x) by (left; reflexivity).
  apply IH. intros y Hy. apply H. right. exact Hy.
Qed.

(** C2, as the code has it. In a store that holds every NFT record under
    its own id, [setNFTs(walletId, X)] followed by [setNFTs(walletId, [])]
    leaves no record of that wallet, and the second call leaves the
    collection aggregates as the first call made them: each count is still
    the count before the first call plus the number of records of [X] folded
    into that aggregate. *)
Theorem setNFTs_then_empty (s : Store.t) (walletId : string) (X : list NFT.t) :
  keyed (nfts s) ->
  getNFTsByWallet walletId (setNFTs walletId [] (setNFTs walletId X s)) = []
  /\ (forall (k : string) (nft : NFT.t),
        nfts (setNFTs walletId [] (setNFTs walletId X s)) !! k = Some nft ->
        NFT.walletId nft <> walletId)
  /\ collections (setNFTs walletId [] (setNFTs walletId X s))
     = collections (setNFTs walletId X s)
  /\ (forall cid : string,
        nftCount_of (collections (setNFTs walletId [] (setNFTs walletId X s)))
                    cid
        = nftCount_of (collections s) cid + sightings cid X).
Proof.
  intros Hkeyed.
  pose proof (setNFTs_keyed walletId X s Hkeyed) as Hkeyed1.
  set (s1 := setNFTs walletId X s) in *.
  assert (Hgone : forall k nft,
             nfts (setNFTs walletId [] s1) !! k = Some nft ->
             NFT.walletId nft <> walletId).
  { intros k nft H. unfold setNFTs in H. simpl in H.
    apply (delete_wallet_nfts_lookup _ _ _ _ Hkeyed1) in H. tauto. }
  split; [|split; [exact Hgone | split; [reflexivity|]]].
  - unfold getNFTsByWallet. apply filter_none. intros nft Hin.
    apply values_In in Hin as [k Hk].
    apply Hgone in Hk. apply String.eqb_neq, Hk.
  - intros cid. change (collections (setNFTs walletId [] s1))
      with (collections s1).
    unfold s1, setNFTs. simpl. apply add_nft_fold_count.
Qed.

Lemma setNFTs_then_empty_witness :
  getNFTsByWallet "w1"
    (setNFTs "w1" [] (setNFTs "w1" [Examples.second; Examples.third]
                              Examples.one_nft_store)) = []
  /\ nftCount_of
       (collections
          (setNFTs "w1" [] (setNFTs "w1" [Examples.second; Examples.third]
                                    Examples.one_nft_store)))
       "evm:0xc" = 2.
Proof.
  assert (Hkeyed : keyed (nfts Examples.one_nft_store)).
  { apply (bool_decide_unpack _). vm_compute. exact I. }
  destruct (setNFTs_then_empty Examples.one_nft_store "w1"
              [Examples.second; Examples.third] Hkeyed)
    as (Hnone & _ & _ & Hcount).
  split; [exact Hnone|]. rewrite Hcount. vm_compute. reflexivity.
Defined.

(** C2 fails as stated: after [updateNFT] has changed the [id] field of a
    record, the record is stored under a key that is not its id; the
    removal in [setNFTs] deletes by the id field and misses it. The state is
    reached from the initial state by the operations of the store. *)
Lemma setNFTs_counterexample :
  NFT.walletId
    <$> nfts (setNFTs "w1" [] (setNFTs "w1" [Examples.second]
                                       Examples.renamed_store)) !! "a"
  = Some "w1"
  /\ length (getNFTsByWallet "w1"
               (setNFTs "w1" [] (setNFTs "w1" [Examples.second]
                                         Examples.renamed_store)))
     = 1%nat.
Proof. split; vm_compute; reflexivity. Qed.

Lemma overrides_default {A : Type} (old : A) (update : option A) :
  overrides old (default old update) update.
Proof. destruct update; reflexivity. Qed.

(** C8. [updateNFT] with an id that the NFT map does not hold leaves the
    state as it is; with an id that the map holds, the record stored under
    that id becomes the field-wise merge of the existing record with the
    update, and nothing else in the state changes. *)
Theorem updateNFT_spec (s : Store.t) (id : string) (updates : PartialNFT.t) :
  (nfts s !! id = None -> updateNFT id updates s = s)
  /\ (forall existing : NFT.t,
        nfts s !! id = Some existing ->
        exists r : NFT.t,
          nfts (updateNFT id updates s) !! id = Some r
          /\ merged existing updates r
          /\ (forall k : string,
                k <> id -> nfts (updateNFT id updates s) !! k = nfts s !! k)
          /\ same_but_nfts s (updateNFT id updates s)).
Proof.
  unfold updateNFT. split.
  - intros ->. destruct s; reflexivity.
  - intros existing ->. exists (merge existing updates).
    split; [apply lookup_insert_eq|]. split; [|split].
    + unfold merged, merge; simpl. repeat split; apply overrides_default.
    + intros k Hk. simpl. apply lookup_insert_ne. congruence.
    + repeat split.
Qed.

Lemma updateNFT_spec_witness :
  updateNFT "zz" Examples.retitle Examples.one_nft_store
  = Examples.one_nft_store
  /\ NFT.name
       <$> nfts (updateNFT "a" Examples.retitle Examples.one_nft_store) !! "a"
     = Some "Renamed".
Proof.
  destruct (updateNFT_spec Examples.one_nft_store "zz" Examples.retitle)
    as [Habsent _].
  destruct (updateNFT_spec Examples.one_nft_store "a" Examples.retitle)
    as [_ Hpresent].
  split.
  - apply Habsent. vm_compute. reflexivity.
  - destruct (Hpresent Examples.first) as (r & Hr & Hm & _).
    + vm_compute. reflexivity.
    + rewrite Hr. simpl. f_equal.
      destruct Hm as (_ & _ & _ & _ & _ & _ & Hname & _). exact Hname.
Defined.

(** C10, as the code has it. [addWallet] appends one wallet, active, with
    the generated id and the fields of its argument, and leaves the wallets
    before it as they are; the active wallet id becomes the id of the new wallet
    when it was unset or the empty string, and stays as it is otherwise;
    nothing else in the state changes. *)
Theorem addWallet_spec (now : Z) (rnd : string) (addedAt : Z)
    (wallet : WalletInput.t) (s : Store.t) :
  (exists w : Wallet.t,
     wallets (addWallet now rnd addedAt wallet s) = wallets s ++ [w]
     /\ Wallet.id w = wallet_id now rnd
     /\ Wallet.isActive w = Some true
     /\ Wallet.addedAt w = addedAt
     /\ Wallet.address w = WalletInput.address wallet
     /\ Wallet.chain w = WalletInput.chain wallet
     /\ Wallet.evmChain w = WalletInput.evmChain wallet
     /\ Wallet.label w = WalletInput.label wallet
     /\ Wallet.color w = WalletInput.color wallet)
  /\ activeWalletId (addWallet now rnd addedAt wallet s)
     = match activeWalletId s with
       | None | Some EmptyString => Some (wallet_id now rnd)
       | Some active => Some active
       end
  /\ same_but_wallets s (addWallet now rnd addedAt wallet s).
Proof.
  split; [|split].
  - eexists. split; [reflexivity|]. repeat split.
  - unfold addWallet. simpl. unfold JS.or, JS.truthy.
    destruct (activeWalletId s) as [[|c a]|]; reflexivity.
  - repeat split.
Qed.

(** C10 fails as stated: an active wallet id that is set to the empty
    string is replaced by the id of the new wallet. *)
Lemma addWallet_counterexample :
  activeWalletId (setActiveWallet (Some "") initial) = Some ""
  /\ activeWalletId
       (addWallet 1700000000000 "k3j9x0q2a" 1700000000000
                  Examples.wallet_input
                  (setActiveWallet (Some "") initial))
     = Some "wallet_1700000000000_k3j9x0q2a".
Proof. split; reflexivity. Qed.

End store_facts.

(* ===================================================================== *)
(** * Further properties of the normalizer *)
(* ===================================================================== *)

Section normalizer_more.

Import NFTNormalizer Shape.

Lemma lower_char_idem (c : ascii) :
  JS.lower_char (JS.lower_char c) = JS.lower_char c.
Proof. destruct c as [[] [] [] [] [] [] [] []]; reflexivity. Qed.

Lemma toLowerCase_idem (s : string) :
  JS.toLowerCase (JS.toLowerCase s) = JS.toLowerCase s.
Proof.
  induction s as [|c s IH]; simpl; [reflexivity|].
  rewrite lower_char_idem, IH. reflexivity.
Qed.

Lemma split_evm_id (e : EVMChain) (a t : string) :
  JS.has_char ":" a = false ->
  JS.has_char ":" t = false ->
  JS.split ":" ("evm" +:+ String ":" (EVMChain_str e +:+ String ":"
                  (a +:+ String ":" t)))
  = ["evm"; EVMChain_str e; a; t].
Proof.
  intros Ha Ht.
  rewrite (split_segment ":" "evm") by reflexivity.
  rewrite (split_segment ":" (EVMChain_str e)) by apply EVMChain_str_no_colon.
  rewrite (split_segment ":" a) by exact Ha.
  rewrite (split_no_sep ":" t) by exact Ht.
  reflexivity.
Qed.

Lemma normalizeImageUrl_gateway_free (url : string) :
  gateway_free (normalizeImageUrl url).
Proof.
  unfold gateway_free, normalizeImageUrl.
  destruct (String.eqb url "") eqn:Hempty; [split; reflexivity|].
  destruct (JS.startsWith "ipfs://" url) eqn:Hipfs; [split; reflexivity|].
  destruct (JS.startsWith "ar://" url) eqn:Har; [split; reflexivity|].
  split; assumption.
Qed.

Lemma normalizeImageUrl_fixed (url : string) :
  gateway_free url -> normalizeImageUrl url = url.
Proof.
  intros [Hipfs Har]. unfold normalizeImageUrl. rewrite Hipfs, Har.
  destruct (String.eqb_spec url ""); congruence.
Qed.

Lemma normalizeImageUrl_empty (url : string) :
  normalizeImageUrl url = "" <-> url = "".
Proof.
  split; [|intros ->; reflexivity].
  unfold normalizeImageUrl.
  destruct (String.eqb_spec url "") as [->|Hne]; [reflexivity|].
  destruct (JS.startsWith "ipfs://" url); [discriminate|].
  destruct (JS.startsWith "ar://" url); [discriminate|].
  intros H. contradiction.
Qed.

(** The id that [fromAlchemy] gives a record is the id that [generateId]
    builds from the same parts, and [parseId] reads the record's own chain,
    contract address and token id back from it, when the contract address
    and the token id of the provider record hold no [':']. *)
Theorem fromAlchemy_id_parses (now : Z) (dateGetTime : string -> Z)
    (a : AlchemyNFT.t) (walletId : string) (chain : EVMChain) :
  JS.has_char ":" (AlchemyNFT.address (AlchemyNFT.contract a)) = false ->
  JS.has_char ":" (AlchemyNFT.tokenId a) = false ->
  NFT.id (fromAlchemy now dateGetTime a walletId chain)
  = generateId evm (AlchemyNFT.address (AlchemyNFT.contract a))
               (AlchemyNFT.tokenId a) (Some chain)
  /\ parseId (NFT.id (fromAlchemy now dateGetTime a walletId chain))
     = Some {| chain := NFT.chain (fromAlchemy now dateGetTime a walletId chain);
               evmChain := Some (EVMChain_str chain);
               contractAddress :=
                 NFT.contractAddress (fromAlchemy now dateGetTime a walletId chain);
               tokenId :=
                 NFT.tokenId (fromAlchemy now dateGetTime a walletId chain) |}.
Proof.
  intros Haddr Htok. split; [reflexivity|].
  unfold parseId. cbn [fromAlchemy NFT.id NFT.chain NFT.contractAddress NFT.tokenId].
  change ("evm:" +:+ EVMChain_str chain +:+ ":"
          +:+ JS.toLowerCase (AlchemyNFT.address (AlchemyNFT.contract a))
          +:+ ":" +:+ AlchemyNFT.tokenId a)
    with ("evm" +:+ String ":" (EVMChain_str chain +:+ String ":"
            (JS.toLowerCase (AlchemyNFT.address (AlchemyNFT.contract a))
             +:+ String ":" (AlchemyNFT.tokenId a)))).
  rewrite split_evm_id by (try apply toLowerCase_no_colon; assumption).
  reflexivity.
Qed.

Lemma fromAlchemy_id_parses_witness :
  parseId (NFT.id (fromAlchemy 0 (fun _ => 0) Examples.scenario_record "w1" base))
  = Some {| chain := evm;
            evmChain := Some "base";
            contractAddress := "0xabc";
            tokenId := "7" |}.
Proof.
  apply (fromAlchemy_id_parses 0 (fun _ => 0) Examples.scenario_record "w1" base);
    reflexivity.
Defined.

(** The id that [fromHelius] gives a record parses as a Solana id whose
    contract address and token id are both the token id of the record (the
    asset id), when the asset id holds no [':']. *)
Theorem fromHelius_id_parses_token (now : Z) (a : HeliusAsset.t)
    (walletId : string) :
  JS.has_char ":" (HeliusAsset.id a) = false ->
  parseId (NFT.id (fromHelius now a walletId))
  = Some {| chain := NFT.chain (fromHelius now a walletId);
            evmChain := None;
            contractAddress := NFT.tokenId (fromHelius now a walletId);
            tokenId := NFT.tokenId (fromHelius now a walletId) |}.
Proof. intros H. apply (fromHelius_id_parses now a walletId H). Qed.

Lemma fromHelius_id_parses_token_witness :
  parseId (NFT.id (fromHelius 0 Samples.asset "w1"))
  = Some {| chain := solana;
            evmChain := None;
            contractAddress := "7xKXtg2CW87d97TXJSDpbD5jBkheTqA83TZRuJosgAsU";
            tokenId := "7xKXtg2CW87d97TXJSDpbD5jBkheTqA83TZRuJosgAsU" |}.
Proof.
  apply (fromHelius_id_parses_token 0 Samples.asset "w1"). reflexivity.
Defined.

Lemma concat_two (sep a b : string) (l : list string) :
  String.concat sep (a :: b :: l) = a +:+ sep +:+ String.concat sep (b :: l).
Proof. reflexivity. Qed.

(** Joining the segments of [split] with the separator gives the string
    back. *)
Lemma split_join (sep : ascii) (s : string) :
  String.concat (String sep "") (JS.split sep s) = s.
Proof.
  induction s as [|c s IH]; [reflexivity|]. simpl JS.split.
  pose proof (split_not_nil sep s) as Hnil.
  destruct (JS.split sep s) as [|x l]; [contradiction|].
  destruct (Ascii.eqb_spec c sep) as [->|Hne].
  - rewrite concat_two, IH. reflexivity.
  - destruct l as [|y l].
    + simpl in *. rewrite IH. reflexivity.
    + rewrite concat_two in *. rewrite <- IH. reflexivity.
Qed.

(** What [parseId] accepts it reads without loss: the id is the segments of
    the result joined by [':'] again. An EVM result carries a sub-chain; a
    Solana result carries none and repeats the one segment as contract
    address and token id. *)
Theorem parseId_rebuild (id : string) (p : ParsedId) :
  parseId id = Some p ->
  match chain p with
  | evm =>
      exists e : string,
        evmChain p = Some e
        /\ id = "evm:" +:+ e +:+ ":" +:+ contractAddress p +:+ ":" +:+ tokenId p
  | solana =>
      evmChain p = None
      /\ tokenId p = contractAddress p
      /\ id = "solana:" +:+ contractAddress p
  end.
Proof.
  unfold parseId.
  pose proof (split_join ":" id) as Hjoin.
  destruct (JS.split ":" id) as [|p0 [|p1 [|p2 [|p3 [|p4 l]]]]];
    simpl; rewrite ?andb_false_r; simpl; try discriminate.
  - destruct (String.eqb_spec p0 "solana") as [->|]; [|discriminate].
    simpl. intros [= <-]. simpl. repeat split. symmetry. exact Hjoin.
  - destruct (String.eqb_spec p0 "evm") as [->|].
    + simpl. intros [= <-]. simpl. exists p1. split; [reflexivity|].
      symmetry. exact Hjoin.
    + simpl. discriminate.
Qed.

Lemma parseId_rebuild_witness :
  exists e : string,
    Some "base" = Some e
    /\ "evm:base:0xabc:7" = "evm:" +:+ e +:+ ":" +:+ "0xabc" +:+ ":" +:+ "7".
Proof.
  exact (parseId_rebuild "evm:base:0xabc:7"
           {| chain := evm; evmChain := Some "base";
              contractAddress := "0xabc"; tokenId := "7" |} eq_refl).
Defined.

(** Two NFTs of EVM chains get the same id only when they agree in the
    sub-chain, the contract address up to case, and the token id (for
    contract addresses and token ids that hold no [':']). *)
Theorem generateId_injective (e1 e2 : EVMChain) (a1 a2 t1 t2 : string) :
  JS.has_char ":" a1 = false -> JS.has_char ":" t1 = false ->
  JS.has_char ":" a2 = false -> JS.has_char ":" t2 = false ->
  generateId evm a1 t1 (Some e1) = generateId evm a2 t2 (Some e2) ->
  e1 = e2 /\ JS.toLowerCase a1 = JS.toLowerCase a2 /\ t1 = t2.
Proof.
  intros Ha1 Ht1 Ha2 Ht2 H.
  assert (Hs : JS.split ":" (generateId evm a1 t1 (Some e1))
               = JS.split ":" (generateId evm a2 t2 (Some e2)))
    by (rewrite H; reflexivity).
  change (generateId evm a1 t1 (Some e1))
    with ("evm" +:+ String ":" (EVMChain_str e1 +:+ String ":"
            (JS.toLowerCase a1 +:+ String ":" t1))) in Hs.
  change (generateId evm a2 t2 (Some e2))
    with ("evm" +:+ String ":" (EVMChain_str e2 +:+ String ":"
            (JS.toLowerCase a2 +:+ String ":" t2))) in Hs.
  rewrite !split_evm_id in Hs by (try apply toLowerCase_no_colon; assumption).
  injection Hs as He Ha Ht. repeat split; try assumption.
  destruct e1, e2; try reflexivity; discriminate He.
Qed.

Lemma generateId_injective_witness :
  base = base /\ JS.toLowerCase "0xABC" = JS.toLowerCase "0xabc" /\ "7" = "7".
Proof.
  apply (generateId_injective base base "0xABC" "0xabc" "7" "7"); reflexivity.
Defined.

(** The images of a normalized record carry no [ipfs://] and no [ar://]
    scheme, for both providers, and neither does the URL that the card
    hands to the image component. *)
Theorem normalized_images_gateway_free (now : Z) (dateGetTime : string -> Z)
    (a : AlchemyNFT.t) (h : HeliusAsset.t) (walletId : string)
    (chain : EVMChain) :
  gateway_free (NFT.image (fromAlchemy now dateGetTime a walletId chain))
  /\ gateway_free (NFTCard.imageUrl (fromAlchemy now dateGetTime a walletId chain))
  /\ gateway_free (NFT.image (fromHelius now h walletId))
  /\ gateway_free (NFTCard.imageUrl (fromHelius now h walletId)).
Proof.
  split; [apply normalizeImageUrl_gateway_free|].
  split; [|split; apply normalizeImageUrl_gateway_free].
  unfold NFTCard.imageUrl, JS.or.
  cbn [fromAlchemy NFT.imageOptimized NFT.image].
  destruct (JS.truthy (head (AlchemyNFT.media a) ≫= AlchemyNFT.thumbnail)).
  - destruct (head (AlchemyNFT.media a) ≫= AlchemyNFT.thumbnail) as [t|];
      cbn [fmap option_fmap option_map].
    + destruct (JS.truthy (Some (normalizeImageUrl t))); cbn [default];
        apply normalizeImageUrl_gateway_free.
    + cbn [JS.truthy default]. apply normalizeImageUrl_gateway_free.
  - cbn [JS.truthy default]. apply normalizeImageUrl_gateway_free.
Qed.

End normalizer_more.

(** ** [createOptimizedUrl] *)

Section image_proxy_facts.

Import NFTNormalizer ImageProxy Shape.

Lemma string_forall_app (f : ascii -> bool) (a b : string) :
  string_forall f (a +:+ b) = string_forall f a && string_forall f b.
Proof.
  induction a as [|c a IH]; simpl; [reflexivity|].
  rewrite IH. apply andb_assoc.
Qed.

Lemma encode_char_safe (c : ascii) :
  string_forall (fun d => is_unreserved d || Ascii.eqb d "%") (encode_char c)
  = true.
Proof. destruct c as [[] [] [] [] [] [] [] []]; reflexivity. Qed.

Lemma decode_encode_char (c : ascii) (rest : string) :
  decode (encode_char c +:+ rest) = String c <$> decode rest.
Proof. destruct c as [[] [] [] [] [] [] [] []]; reflexivity. Qed.

Lemma decode_encode (s : string) : decode (encodeURIComponent s) = Some s.
Proof.
  induction s as [|c s IH]; [reflexivity|].
  cbn [encodeURIComponent]. rewrite decode_encode_char, IH. reflexivity.
Qed.

Lemma encodeURIComponent_inj (s1 s2 : string) :
  encodeURIComponent s1 = encodeURIComponent s2 -> s1 = s2.
Proof.
  intros H. pose proof (decode_encode s1) as H1.
  rewrite H, decode_encode in H1. congruence.
Qed.

(** The proxy URL of an image is the proxy URL of its normalized form: an
    [ipfs://] or [ar://] URL and its gateway URL are served from one proxy
    URL. The empty URL has the empty proxy URL. *)
Theorem createOptimizedUrl_normalized (url : string) (width : option Z) :
  createOptimizedUrl (normalizeImageUrl url) width = createOptimizedUrl url width
  /\ createOptimizedUrl "" width = "".
Proof.
  split; [|reflexivity]. unfold createOptimizedUrl.
  destruct (String.eqb_spec url "") as [->|Hne]; [reflexivity|].
  destruct (String.eqb_spec (normalizeImageUrl url) "") as [He|_].
  - apply (proj1 (normalizeImageUrl_empty url)) in He. contradiction.
  - rewrite (normalizeImageUrl_fixed (normalizeImageUrl url))
      by apply normalizeImageUrl_gateway_free.
    reflexivity.
Qed.

(** In a proxy URL the source URL is everything after the fixed prefix with
    the width, written with letters, digits, [- _ . ! ~ * ' ( )] and [%]
    only: it holds no [/], [?], [#] or [&] of its own. *)
Theorem createOptimizedUrl_encoded (url : string) (width : option Z) :
  url <> "" ->
  exists encoded : string,
    createOptimizedUrl url width
    = "https://images.nebula.gg/cdn-cgi/image/width="
      +:+ String_of (VNumber (default 400 width))
      +:+ ",quality=85,format=auto/" +:+ encoded
    /\ string_forall (fun d => is_unreserved d || Ascii.eqb d "%") encoded = true
    /\ decode encoded = Some (normalizeImageUrl url).
Proof.
  intros Hne. exists (encodeURIComponent (normalizeImageUrl url)).
  split; [|split].
  - unfold createOptimizedUrl. destruct (String.eqb_spec url ""); [contradiction|].
    reflexivity.
  - induction (normalizeImageUrl url) as [|c s IH]; [reflexivity|].
    cbn [encodeURIComponent]. rewrite string_forall_app, encode_char_safe, IH.
    reflexivity.
  - apply decode_encode.
Qed.

Lemma createOptimizedUrl_encoded_witness :
  exists encoded : string,
    createOptimizedUrl "ar://a b" None
    = "https://images.nebula.gg/cdn-cgi/image/width="
      +:+ String_of (VNumber (default 400 None))
      +:+ ",quality=85,format=auto/" +:+ encoded
    /\ string_forall (fun d => is_unreserved d || Ascii.eqb d "%") encoded = true
    /\ decode encoded = Some (normalizeImageUrl "ar://a b").
Proof. apply (createOptimizedUrl_encoded "ar://a b" None). discriminate. Defined.

(** At one width two non-empty URLs share a proxy URL only when they have
    the same normalized form. *)
Theorem createOptimizedUrl_injective (url1 url2 : string) (width : option Z) :
  url1 <> "" -> url2 <> "" ->
  createOptimizedUrl url1 width = createOptimizedUrl url2 width ->
  normalizeImageUrl url1 = normalizeImageUrl url2.
Proof.
  intros H1 H2. unfold createOptimizedUrl.
  destruct (String.eqb_spec url1 ""); [contradiction|].
  destruct (String.eqb_spec url2 ""); [contradiction|].
  intros H. apply encodeURIComponent_inj.
  repeat apply String.app_inj in H. exact H.
Qed.

Lemma createOptimizedUrl_injective_witness :
  normalizeImageUrl "ipfs://abc" = normalizeImageUrl "https://ipfs.io/ipfs/abc".
Proof.
  apply (createOptimizedUrl_injective "ipfs://abc" "https://ipfs.io/ipfs/abc"
           (Some 200)); [discriminate | discriminate | reflexivity].
Defined.

End image_proxy_facts.

(* ===================================================================== *)
(** * Further properties of the detector *)
(* ===================================================================== *)

Section channel_shape.

Import FarcasterDetector ImageProxy Shape.

Lemma lower_channel_char (c : ascii) :
  is_channel_char c = true -> is_channel_name_char (JS.lower_char c) = true.
Proof. destruct c as [[] [] [] [] [] [] [] []]; vm_compute; congruence. Qed.

Lemma take_channel_chars (s : string) :
  string_forall is_channel_char (take_channel s) = true.
Proof.
  induction s as [|c s IH]; simpl; [reflexivity|].
  destruct (is_channel_char c) eqn:Hc; simpl; [|reflexivity].
  rewrite Hc, IH. reflexivity.
Qed.

Lemma toLowerCase_channel (s : string) :
  s <> "" ->
  string_forall is_channel_char s = true ->
  channel_name (JS.toLowerCase s).
Proof.
  intros Hne Hall. split.
  - destruct s; [contradiction | discriminate].
  - clear Hne. induction s as [|c s IH]; simpl in *; [reflexivity|].
    apply andb_true_iff in Hall as [Hc Hs].
    rewrite (lower_channel_char c Hc), (IH Hs). reflexivity.
Qed.

Lemma match_here_chars (p : pattern) (s cap : string) :
  match_here p s = Some cap -> string_forall is_channel_char cap = true.
Proof.
  unfold match_here. destruct (strip_literal (literal p) s) as [rest|];
    [|discriminate].
  destruct (String.eqb _ ""); [discriminate|].
  intros [= <-]. apply take_channel_chars.
Qed.

Lemma match_capture_unfold (p : pattern) (s : string) :
  match_capture p s
  = match match_here p s with
    | Some cap => Some cap
    | None =>
        match s with
        | EmptyString => None
        | String _ s' => match_capture p s'
        end
    end.
Proof. destruct s; reflexivity. Qed.

Lemma match_capture_chars (p : pattern) (s cap : string) :
  match_capture p s = Some cap -> string_forall is_channel_char cap = true.
Proof.
  induction s as [|c s IH]; rewrite match_capture_unfold.
  - destruct (match_here p "") eqn:H; [|discriminate].
    intros [= <-]. apply (match_here_chars _ _ _ H).
  - destruct (match_here p (String c s)) eqn:H; [|exact IH].
    intros [= <-]. apply (match_here_chars _ _ _ H).
Qed.

Lemma first_capture_shape (ps : list pattern) (t c : string) :
  first_capture ps t = Some c -> channel_name c.
Proof.
  induction ps as [|p ps IH]; simpl; [discriminate|].
  destruct (match_capture p t) as [cap|] eqn:H; [|exact IH].
  destruct (String.eqb_spec cap "") as [|Hne]; [exact IH|].
  intros [= <-]. apply toLowerCase_channel; [exact Hne|].
  apply (match_capture_chars _ _ _ H).
Qed.

Lemma extractChannelFromText_shape (text : option string) (c : string) :
  extractChannelFromText text = Some c -> channel_name c.
Proof.
  unfold extractChannelFromText. destruct text as [t|]; [|discriminate].
  destruct (String.eqb t ""); [discriminate|]. apply first_capture_shape.
Qed.

Lemma extractChannel_name (nft : NFT.t) (c : string) :
  extractChannel nft = Some c -> channel_name c.
Proof.
  unfold extractChannel.
  destruct (JS.truthy _); [apply extractChannelFromText_shape|].
  destruct (JS.truthy _); [apply extractChannelFromText_shape|].
  destruct (JS.truthy _).
  { destruct (_ ≫= _); [apply extractChannelFromText_shape | discriminate]. }
  destruct (JS.truthy _); [apply extractChannelFromText_shape|].
  destruct (JS.truthy _); [apply extractChannelFromText_shape | discriminate].
Qed.

Lemma extractChannel_shape_name (nft : NFT.t) (c : string) :
  extractChannel nft = Some c -> c <> "".
Proof. intros H. apply (extractChannel_name nft c H). Qed.

(** A channel that [extractChannel] finds is a name of one or more lower
    case letters, digits and hyphens; the channel that [enrichNFT] stores is
    such a name too. *)
Theorem extractChannel_shape (nft : NFT.t) (c : string) :
  extractChannel nft = Some c ->
  channel_name c
  /\ (NFTMetadata.isFarcasterMint (NFT.metadata (enrichNFT nft)) = true ->
      NFTMetadata.farcasterChannel (NFT.metadata (enrichNFT nft)) = Some c).
Proof.
  intros H. split.
  - apply (extractChannel_name nft c H).
  - cbn [enrichNFT NFT.metadata NFTMetadata.isFarcasterMint
                   NFTMetadata.farcasterChannel].
    intros ->. exact H.
Qed.

Lemma extractChannel_shape_witness :
  channel_name "base-art"
  /\ (NFTMetadata.isFarcasterMint (NFT.metadata (enrichNFT Samples.described))
      = true ->
      NFTMetadata.farcasterChannel (NFT.metadata (enrichNFT Samples.described))
      = Some "base-art").
Proof. apply (extractChannel_shape Samples.described "base-art"). reflexivity. Defined.

End channel_shape.

Section pattern_facts.

Import FarcasterDetector Shape.

Lemma lower_char_slash (c : ascii) :
  Ascii.eqb (JS.lower_char c) "/" = true -> c = "/"%char.
Proof. destruct c as [[] [] [] [] [] [] [] []]; vm_compute; congruence. Qed.

Lemma strip_literal_slash (lit s rest : string) :
  strip_literal (lit +:+ "/") s = Some rest ->
  exists pre : string, s = pre +:+ String "/" rest.
Proof.
  revert s. induction lit as [|a lit IH]; intros [|c s]; simpl; try discriminate.
  - destruct (Ascii.eqb (JS.lower_char c) "/") eqn:Hc; [|discriminate].
    apply lower_char_slash in Hc. subst c.
    destruct s; intros [= <-]; exists ""; reflexivity.
  - destruct (Ascii.eqb (JS.lower_char c) a); [|discriminate].
    intros H. destruct (IH _ H) as [pre ->]. exists (String c pre). reflexivity.
Qed.

Lemma take_channel_head (s : string) :
  take_channel s <> "" ->
  exists (c : ascii) (r : string), s = String c r /\ is_channel_char c = true.
Proof.
  destruct s as [|c r]; simpl; [contradiction|].
  destruct (is_channel_char c) eqn:Hc; [|contradiction]. eauto.
Qed.

Lemma slash_found (pre : string) (c : ascii) (r : string) :
  is_channel_char c = true ->
  match_capture (mkPattern "/" false) (pre +:+ String "/" (String c r)) <> None.
Proof.
  intros Hc. induction pre as [|a pre IH].
  - rewrite match_capture_unfold. unfold match_here. simpl. rewrite Hc. simpl.
    discriminate.
  - rewrite append_String_l, match_capture_unfold.
    destruct (match_here _ _); [discriminate | exact IH].
Qed.

Lemma match_capture_source (p : pattern) (t cap : string) :
  match_capture p t = Some cap ->
  exists pre s : string, t = pre +:+ s /\ match_here p s = Some cap.
Proof.
  induction t as [|c t IH]; rewrite match_capture_unfold.
  - destruct (match_here p "") eqn:H; [|discriminate].
    intros [= <-]. exists "", "". auto.
  - destruct (match_here p (String c t)) eqn:H.
    + intros [= <-]. exists "", (String c t). auto.
    + intros H'. destruct (IH H') as (pre & s & -> & Hs).
      exists (String c pre), s. auto.
Qed.

Lemma append_assoc (a b c : string) : (a +:+ b) +:+ c = a +:+ (b +:+ c).
Proof. induction a as [|x a IH]; [reflexivity|]. rewrite !append_String_l, IH. reflexivity. Qed.

(** A pattern whose literal ends in [/] matches only texts that the
    pattern [/name] matches too. *)
Lemma slash_pattern_covered (lit t : string) :
  match_capture (mkPattern "/" false) t = None ->
  match_capture (mkPattern (lit +:+ "/") false) t = None.
Proof.
  intros Hnone.
  destruct (match_capture (mkPattern (lit +:+ "/") false) t) as [cap|] eqn:H;
    [|reflexivity].
  exfalso. apply match_capture_source in H as (pre & s & -> & Hs).
  unfold match_here in Hs. simpl literal in Hs. simpl spaces in Hs.
  destruct (strip_literal (lit +:+ "/") s) as [rest|] eqn:Hstrip;
    [|discriminate].
  apply strip_literal_slash in Hstrip as [pre' ->].
  destruct (String.eqb_spec (take_channel rest) "") as [|Hne]; [discriminate|].
  apply take_channel_head in Hne as (c & r & -> & Hc).
  rewrite <- append_assoc in Hnone.
  exact (slash_found _ _ _ Hc Hnone).
Qed.

(** Of the four channel patterns only two decide the result: a text that
    the [farcaster.xyz/] or the [warpcast.com/~/] pattern matches is matched
    by the first pattern, [/name], before them. The channel of a text is the
    name after its first [/] that a name follows, and without such a [/] the
    name after its first [channel:]. *)
Theorem extractChannelFromText_two_patterns (text : option string) :
  extractChannelFromText text
  = match text with
    | None => None
    | Some t =>
        if String.eqb t "" then None
        else first_capture [mkPattern "/" false; mkPattern "channel:" true] t
    end.
Proof.
  unfold extractChannelFromText. destruct text as [t|]; [|reflexivity].
  destruct (String.eqb t ""); [reflexivity|].
  unfold CHANNEL_PATTERNS. cbn [first_capture].
  destruct (match_capture (mkPattern "/" false) t) as [cap|] eqn:H1.
  - destruct (String.eqb_spec cap "") as [->|]; [|reflexivity].
    apply match_capture_source in H1 as (pre & s & _ & Hs).
    unfold match_here in Hs.
    destruct (strip_literal _ s) as [rest|]; [|discriminate]. simpl in Hs.
    destruct (String.eqb_spec (take_channel rest) ""); [discriminate|].
    injection Hs as Hs. contradiction.
  - assert (H2 : match_capture (mkPattern "farcaster.xyz/" false) t = None)
      by exact (slash_pattern_covered "farcaster.xyz" t H1).
    assert (H3 : match_capture (mkPattern "warpcast.com/~/" false) t = None)
      by exact (slash_pattern_covered "warpcast.com/~" t H1).
    rewrite H2, H3. reflexivity.
Qed.

(** [enrichNFT] does not read the detection fields that a record already
    carries: whatever flag and channel the record had, the result is the
    same. So enriching a second time changes nothing, for one record and
    for a list. *)
Theorem enrichNFT_idempotent (nfts : list NFT.t) (nft : NFT.t) (flag : bool)
    (channel : option string) :
  enrichNFT (Shape.with_detection flag channel nft) = enrichNFT nft
  /\ enrichNFT (enrichNFT nft) = enrichNFT nft
  /\ enrichNFTs (enrichNFTs nfts) = enrichNFTs nfts.
Proof.
  split; [reflexivity|]. split; [reflexivity|].
  unfold enrichNFTs. rewrite map_map.
  induction nfts as [|x nfts IH]; [reflexivity|].
  simpl map. rewrite IH. reflexivity.
Qed.

End pattern_facts.

Section enriched_lists.

Import FarcasterDetector Signals Shape.

Lemma getChannels_In (nfts : list NFT.t) (c : string) :
  In c (getChannels nfts)
  <-> c <> ""
      /\ exists nft : NFT.t,
           In nft nfts
           /\ NFTMetadata.isFarcasterMint (NFT.metadata nft) = true
           /\ NFTMetadata.farcasterChannel (NFT.metadata nft) = Some c.
Proof.
  unfold getChannels.
  set (flagged := List.filter _ nfts).
  destruct (collect_fold flagged [] ltac:(constructor)) as [_ Hin].
  assert (Hperm : In c (JSArray.sort String.leb (foldl collect [] flagged))
                  <-> In c (foldl collect [] flagged)).
  { split; apply Permutation_in; [|symmetry]; apply sort_Permutation. }
  rewrite Hperm, Hin. unfold flagged. split.
  - intros [[]|[Hc (n & Hn & H)]]. split; [exact Hc|].
    apply filter_In in Hn as [Hn Hf]. eauto.
  - intros [Hc (n & Hn & Hf & H)]. right. split; [exact Hc|].
    exists n. split; [|exact H]. apply filter_In. auto.
Qed.

(** On a list that [enrichNFTs] has produced, [getChannels] returns every
    channel that an element of the list carries: the channels that
    [extractChannel] finds for the elements that [isFarcasterMint]
    accepts. *)
Theorem getChannels_enriched (nfts : list NFT.t) (c : string) :
  (In c (getChannels (enrichNFTs nfts)) <-> listed_channel (enrichNFTs nfts) c)
  /\ (In c (getChannels (enrichNFTs nfts))
      <-> exists nft : NFT.t,
            In nft nfts /\ isFarcasterMint nft = true
            /\ extractChannel nft = Some c).
Proof.
  assert (Hsrc : listed_channel (enrichNFTs nfts) c
                 <-> exists nft : NFT.t,
                       In nft nfts /\ isFarcasterMint nft = true
                       /\ extractChannel nft = Some c).
  { unfold listed_channel, enrichNFTs. split.
    - intros (e & He & Hc). apply in_map_iff in He as (nft & <- & Hin).
      exists nft. split; [exact Hin|]. revert Hc.
      cbn [enrichNFT NFT.metadata NFTMetadata.farcasterChannel].
      destruct (isFarcasterMint nft); [auto | discriminate].
    - intros (nft & Hin & Hf & Hc). exists (enrichNFT nft).
      split; [apply in_map, Hin|].
      cbn [enrichNFT NFT.metadata NFTMetadata.farcasterChannel].
      rewrite Hf. exact Hc. }
  assert (Hmem : In c (getChannels (enrichNFTs nfts))
                 <-> exists nft : NFT.t,
                       In nft nfts /\ isFarcasterMint nft = true
                       /\ extractChannel nft = Some c).
  { rewrite getChannels_In. unfold enrichNFTs. split.
    - intros (_ & e & He & Hf & Hc). apply in_map_iff in He as (nft & <- & Hin).
      exists nft. revert Hf Hc.
      cbn [enrichNFT NFT.metadata NFTMetadata.farcasterChannel
                     NFTMetadata.isFarcasterMint].
      intros ->. auto.
    - intros (nft & Hin & Hf & Hc). split.
      + apply (extractChannel_shape_name nft c Hc).
      + exists (enrichNFT nft). split; [apply in_map, Hin|].
        cbn [enrichNFT NFT.metadata NFTMetadata.farcasterChannel
                       NFTMetadata.isFarcasterMint].
        rewrite Hf. auto. }
  rewrite Hsrc. split; exact Hmem.
Qed.

End enriched_lists.

(* ===================================================================== *)
(** * Grouping by a key: [groupByChannel] and the ['collection'] mode *)
(* ===================================================================== *)

Section grouping_facts.

Import Grid Shape.

Lemma map_push (k : string) (x : NFT.t) (m : JSMap.t (list NFT.t)) :
  JSMap.set k
    (default [] (JSMap.get k (if JSMap.has k m then m else JSMap.set k [] m))
     ++ [x])
    (if JSMap.has k m then m else JSMap.set k [] m)
  = push_to k x m.
Proof.
  induction m as [|[k0 g] m IH].
  - simpl. rewrite String.eqb_refl. simpl. rewrite ?String.eqb_refl. reflexivity.
  - unfold JSMap.has in *. simpl.
    destruct (String.eqb k k0) eqn:Hk.
    + simpl. rewrite Hk. reflexivity.
    + destruct (JSMap.get k m) eqn:Hget; simpl; rewrite Hk;
        simpl in IH; rewrite IH; reflexivity.
Qed.

Lemma get_push_to (k k' : string) (x : NFT.t) (m : JSMap.t (list NFT.t)) :
  JSMap.get k (push_to k' x m)
  = if String.eqb k k' then Some (default [] (JSMap.get k m) ++ [x])
    else JSMap.get k m.
Proof.
  induction m as [|[k0 g] m IH]; simpl.
  - destruct (String.eqb k k'); reflexivity.
  - destruct (String.eqb_spec k' k0) as [->|Hne]; simpl.
    + destruct (String.eqb k k0); reflexivity.
    + rewrite IH. destruct (String.eqb_spec k k') as [->|Hne'].
      * destruct (String.eqb_spec k' k0); [contradiction | reflexivity].
      * reflexivity.
Qed.

Lemma keys_push_to (k : string) (x : NFT.t) (m : JSMap.t (list NFT.t)) :
  map fst (push_to k x m) = JSSet.add k (map fst m).
Proof.
  unfold JSSet.add, JSSet.has.
  induction m as [|[k0 g] m IH]; simpl; [reflexivity|].
  destruct (String.eqb_spec k k0) as [->|Hne]; simpl; [reflexivity|].
  rewrite IH. destruct (existsb (String.eqb k) (map fst m)); reflexivity.
Qed.

Lemma unique_NoDup (l : list string) (s : JSSet.t) :
  NoDup s -> NoDup (foldl (fun s x => JSSet.add x s) s l).
Proof.
  revert s. induction l as [|x l IH]; intros s H; simpl; [exact H|].
  apply IH, JSSet_add_NoDup, H.
Qed.

Lemma unique_In (l : list string) (s : JSSet.t) (c : string) :
  In c (foldl (fun s x => JSSet.add x s) s l) <-> In c s \/ In c l.
Proof.
  revert s. induction l as [|x l IH]; intros s; simpl; [tauto|].
  rewrite IH, JSSet_add_In. intuition congruence.
Qed.

Variable key : NFT.t -> string.

Lemma keys_fold (l : list NFT.t) (m : JSMap.t (list NFT.t)) :
  map fst (foldl (fun m x => push_to (key x) x m) m l)
  = foldl (fun s x => JSSet.add x s) (map fst m) (map key l).
Proof.
  revert m. induction l as [|x l IH]; intros m; simpl; [reflexivity|].
  rewrite IH, keys_push_to. reflexivity.
Qed.

Lemma get_fold (k : string) (l : list NFT.t) (m : JSMap.t (list NFT.t)) :
  JSMap.get k (foldl (fun m x => push_to (key x) x m) m l)
  = match JSMap.get k m, keyed_by key k l with
    | None, [] => None
    | o, f => Some (default [] o ++ f)
    end.
Proof.
  unfold keyed_by.
  revert m. induction l as [|x l IH]; intros m; simpl.
  - destruct (JSMap.get k m); simpl; rewrite ?app_nil_r; reflexivity.
  - rewrite IH, get_push_to, (String.eqb_sym k (key x)).
    destruct (String.eqb (key x) k); [|reflexivity].
    destruct (JSMap.get k m), (List.filter _ l); simpl;
      rewrite <- ?app_assoc; reflexivity.
Qed.

Lemma entry_get (m : JSMap.t (list NFT.t)) (k : string) (g : list NFT.t) :
  NoDup (map fst m) -> (In (k, g) m <-> JSMap.get k m = Some g).
Proof.
  induction m as [|[k0 g0] m IH]; simpl; intros Hnd.
  - split; [contradiction | discriminate].
  - apply NoDup_cons in Hnd as [Hk0 Hnd]. specialize (IH Hnd).
    destruct (String.eqb_spec k k0) as [->|Hne].
    + split.
      * intros [[= ->]|Hin]; [reflexivity|].
        exfalso. apply Hk0, list_elem_of_In, in_map_iff.
        exists (k0, g). auto.
      * intros [= ->]. left. reflexivity.
    + rewrite <- IH. split; [intros [[= -> _]|H]; [contradiction | exact H] | auto].
Qed.

(** Grouping a list by a key: no key comes twice, the keys are the keys of
    the list in the order of their first occurrence, and the group of a key
    holds the records of that key in the order of the list. *)
Lemma groups_by_key (l : list NFT.t) :
  NoDup (map fst (foldl (fun m x => push_to (key x) x m) [] l))
  /\ map fst (foldl (fun m x => push_to (key x) x m) [] l)
     = StoreOps.unique (map key l)
  /\ forall (k : string) (g : list NFT.t),
       In (k, g) (foldl (fun m x => push_to (key x) x m) [] l)
       <-> g <> [] /\ g = keyed_by key k l.
Proof.
  assert (Hkeys : map fst (foldl (fun m x => push_to (key x) x m) [] l)
                  = StoreOps.unique (map key l)) by apply keys_fold.
  assert (Hnd : NoDup (map fst (foldl (fun m x => push_to (key x) x m) [] l))).
  { rewrite Hkeys. apply unique_NoDup. constructor. }
  split; [exact Hnd | split; [exact Hkeys|]].
  intros k g. rewrite (entry_get _ k g Hnd), get_fold. simpl.
  destruct (keyed_by key k l) as [|x f]; split.
  - discriminate.
  - intros [H ->]. contradiction.
  - intros [= <-]. split; [discriminate | reflexivity].
  - intros [_ ->]. reflexivity.
Qed.

End grouping_facts.

Section channel_groups.

Import FarcasterDetector Grid Shape.

Lemma foldl_same {A B : Type} (f g : A -> B -> A) (l : list B) (a : A) :
  (forall a b, f a b = g a b) -> foldl f a l = foldl g a l.
Proof.
  intros H. revert a. induction l as [|b l IH]; intros a; simpl; [reflexivity|].
  rewrite H. apply IH.
Qed.

(** [groupByChannel] files exactly the records that are flagged as
    Farcaster mints: no label comes twice, and the group of a label holds
    the flagged records with that label (the channel, or ["Unknown Channel"]
    for a record without one) in the order of the list; a label without
    such a record has no group. *)
Theorem groupByChannel_partition (nfts : list NFT.t) :
  NoDup (map fst (groupByChannel nfts))
  /\ forall (label : string) (group : list NFT.t),
       In (label, group) (groupByChannel nfts)
       <-> group <> []
           /\ group
              = keyed_by channel_label label
                  (List.filter
                     (fun nft => NFTMetadata.isFarcasterMint (NFT.metadata nft))
                     nfts).
Proof.
  unfold groupByChannel.
  rewrite (foldl_same _ (fun m x => push_to (channel_label x) x m))
    by (intros m x; apply (map_push (channel_label x))).
  destruct (groups_by_key channel_label
              (List.filter
                 (fun nft => NFTMetadata.isFarcasterMint (NFT.metadata nft)) nfts))
    as (Hnd & _ & Hin).
  split; assumption.
Qed.

End channel_groups.

(* ===================================================================== *)
(** * Further properties of the grid *)
(* ===================================================================== *)

Section grid_more.

Import Grid Shape.

Lemma cards_app (a b : list row) : cards (a ++ b) = cards a ++ cards b.
Proof.
  induction a as [|[h|n] a IH]; simpl; [reflexivity | exact IH|].
  rewrite IH. reflexivity.
Qed.

Lemma cards_Card (l : list NFT.t) : cards (map Card l) = l.
Proof. induction l as [|x l IH]; simpl; [reflexivity | rewrite IH; reflexivity]. Qed.

Lemma cards_sections (gs : list (list NFT.t)) :
  cards (concat (map section gs)) = concat gs.
Proof.
  induction gs as [|g gs IH]; simpl; [reflexivity|].
  rewrite cards_app, cards_Card, IH. reflexivity.
Qed.

Lemma concat_Permutation (gs gs' : list (list NFT.t)) :
  Permutation gs gs' -> Permutation (concat gs) (concat gs').
Proof.
  induction 1 as [|x l l' _ IH|x y l|l l' l'' _ IH1 _ IH2]; simpl.
  - reflexivity.
  - apply Permutation_app_head, IH.
  - rewrite !app_assoc. apply Permutation_app_tail, Permutation_app_comm.
  - etransitivity; eassumption.
Qed.

Lemma push_to_Permutation (k : string) (x : NFT.t) (m : JSMap.t (list NFT.t)) :
  Permutation (concat (map snd (push_to k x m))) (x :: concat (map snd m)).
Proof.
  induction m as [|[k0 g] m IH]; simpl; [reflexivity|].
  destruct (String.eqb k k0); simpl.
  - rewrite <- app_assoc. symmetry. apply Permutation_middle.
  - rewrite IH. symmetry. apply Permutation_middle.
Qed.

Lemma group_fold_Permutation (l : list NFT.t) (m : JSMap.t (list NFT.t)) :
  Permutation (concat (map snd (foldl group_step m l)))
              (concat (map snd m) ++ l).
Proof.
  revert m. induction l as [|x l IH]; intros m; simpl.
  - rewrite app_nil_r. reflexivity.
  - rewrite IH, group_step_push_to, push_to_Permutation.
    simpl. apply Permutation_middle.
Qed.

Lemma filter_split (f : NFT.t -> bool) (l : list NFT.t) :
  Permutation (List.filter f l ++ List.filter (fun x => negb (f x)) l) l.
Proof.
  induction l as [|x l IH]; simpl; [reflexivity|].
  destruct (f x); simpl.
  - apply perm_skip, IH.
  - rewrite <- Permutation_middle. apply perm_skip, IH.
Qed.

Lemma section_length (gs : list (list NFT.t)) :
  length (concat (map section gs)) = (length gs + length (concat gs))%nat.
Proof.
  induction gs as [|g gs IH]; simpl; [reflexivity|].
  rewrite !length_app, length_map, IH. lia.
Qed.

(** No sort mode drops, repeats or invents a record: the cards of the
    display list are the records of the input, rearranged. *)
Theorem arrange_keeps_all (localeCompare : string -> string -> Z)
    (nfts : list NFT.t) (sortMode : SortMode) :
  Permutation (cards (groupAndSortNFTs localeCompare nfts sortMode)) nfts.
Proof.
  destruct sortMode; unfold groupAndSortNFTs;
    try (rewrite cards_Card; apply sort_Permutation).
  - unfold JSMap.entries. rewrite <- (map_map snd section), cards_sections.
    rewrite (concat_Permutation _ _
               (Permutation_map snd (sort_Permutation _ _))).
    apply (group_fold_Permutation nfts []).
  - rewrite cards_app.
    assert (H : forall (title : string) (g : list NFT.t),
               cards (if (0 <? length g)%nat
                      then Header {| SectionHeader.title := title;
                                     SectionHeader.count :=
                                       Some (Z.of_nat (length g)) |}
                           :: map Card g
                      else []) = g).
    { intros title [|x g]; simpl; [reflexivity|]. rewrite cards_Card. reflexivity. }
    rewrite !H. apply filter_split.
Qed.

(** In the ['collection'] mode every collection address of the input has
    its section: the header with the collection name of its first record and
    the number of its records, followed by exactly the records of that
    address in the order of the input. There is one header for every
    distinct address. *)
Theorem arrange_collection_sections (localeCompare : string -> string -> Z)
    (nfts : list NFT.t) :
  (forall nft : NFT.t,
     In nft nfts ->
     exists pre post : list row,
       groupAndSortNFTs localeCompare nfts collection
       = pre ++ section (keyed_by address_of (address_of nft) nfts) ++ post)
  /\ length (groupAndSortNFTs localeCompare nfts collection)
     = (length (StoreOps.unique (map address_of nfts)) + length nfts)%nat.
Proof.
  unfold groupAndSortNFTs, JSMap.entries.
  set (le := fun a b : string * list NFT.t => _).
  pose proof (sort_Permutation le (foldl group_step [] nfts)) as Hperm.
  assert (Hfold : foldl group_step [] nfts
                  = foldl (fun m x => push_to (address_of x) x m) [] nfts).
  { apply foldl_same. intros m x. apply group_step_push_to. }
  destruct (groups_by_key address_of nfts) as (_ & Hkeys & Hin).
  rewrite <- Hfold in Hkeys, Hin.
  split.
  - intros nft Hnft.
    assert (He : In (address_of nft, keyed_by address_of (address_of nft) nfts)
                    (JSArray.sort le (foldl group_step [] nfts))).
    { apply (Permutation_in _ (Permutation_sym Hperm)), Hin.
      split; [|reflexivity].
      intros Hnil.
      assert (Hmem : In nft (keyed_by address_of (address_of nft) nfts)).
      { apply filter_In. split; [exact Hnft | apply String.eqb_refl]. }
      rewrite Hnil in Hmem. destruct Hmem. }
    apply in_split in He as (l1 & l2 & ->).
    exists (concat (map (fun e => section (snd e)) l1)),
           (concat (map (fun e => section (snd e)) l2)).
    rewrite map_app, concat_app. reflexivity.
  - rewrite <- (map_map snd section), section_length, length_map.
    rewrite (Permutation_length Hperm).
    rewrite <- (length_map fst (foldl group_step [] nfts)), Hkeys.
    rewrite (Permutation_length
               (concat_Permutation _ _ (Permutation_map snd Hperm))).
    rewrite (Permutation_length (group_fold_Permutation nfts [])).
    reflexivity.
Qed.

Lemma arrange_collection_sections_witness :
  exists pre post : list row,
    groupAndSortNFTs Examples.codeUnitCompare
      [Examples.third; Examples.alpha; Examples.first] collection
    = pre ++ section (keyed_by address_of (address_of Examples.alpha)
                        [Examples.third; Examples.alpha; Examples.first])
          ++ post.
Proof.
  apply (arrange_collection_sections Examples.codeUnitCompare
           [Examples.third; Examples.alpha; Examples.first]).
  right. left. reflexivity.
Defined.

End grid_more.

Section grid_sorted.

Import Grid Shape.

Lemma Qle_bool_total (x y : Q) : Qle_bool x y = true \/ Qle_bool y x = true.
Proof.
  rewrite !Qle_bool_iff. destruct (Qlt_le_dec x y) as [H|H]; [left | right; exact H].
  apply Qlt_le_weak, H.
Qed.

Lemma Sorted_weaken {A : Type} (R R' : A -> A -> Prop) (l : list A) :
  (forall a b, R a b -> R' a b) -> Sorted R l -> Sorted R' l.
Proof.
  intros Himp. induction 1 as [|x l Hs IH Hd]; constructor; [exact IH|].
  destruct Hd; constructor. apply Himp. assumption.
Qed.

(** The ['value'] mode shows cards only, no header, from the highest floor
    price to the lowest, a record without a floor price counting as 0. *)
Theorem arrange_value_sorted (localeCompare : string -> string -> Z)
    (nfts : list NFT.t) :
  groupAndSortNFTs localeCompare nfts value
  = map Card (cards (groupAndSortNFTs localeCompare nfts value))
  /\ StronglySorted (fun a b => (price b <= price a)%Q)
       (cards (groupAndSortNFTs localeCompare nfts value)).
Proof.
  unfold groupAndSortNFTs. rewrite cards_Card. split; [reflexivity|].
  apply Sorted_StronglySorted.
  - intros a b c Hab Hbc. eapply Qle_trans; eassumption.
  - eapply Sorted_weaken; [|apply sort_Sorted].
    + intros a b H. apply Qle_bool_iff, H.
    + intros a b. apply Qle_bool_total.
Qed.

(** The ['recent'] mode, and the ['custom'] mode that falls to the same
    default branch, show cards only, no header, from the latest fetch to the
    earliest. *)
Theorem arrange_recent_sorted (localeCompare : string -> string -> Z)
    (nfts : list NFT.t) :
  groupAndSortNFTs localeCompare nfts custom
  = groupAndSortNFTs localeCompare nfts recent
  /\ groupAndSortNFTs localeCompare nfts recent
     = map Card (cards (groupAndSortNFTs localeCompare nfts recent))
  /\ StronglySorted (fun a b => NFT.lastFetched b <= NFT.lastFetched a)
       (cards (groupAndSortNFTs localeCompare nfts recent)).
Proof.
  unfold groupAndSortNFTs. rewrite cards_Card.
  split; [reflexivity | split; [reflexivity|]].
  apply Sorted_StronglySorted.
  - intros a b c Hab Hbc. lia.
  - eapply Sorted_weaken; [|apply sort_Sorted].
    + intros a b H. apply Z.leb_le, H.
    + intros a b. rewrite !Z.leb_le. lia.
Qed.




End grid_sorted.

(* ===================================================================== *)
(** * Further properties of the store: NFT records and aggregates *)
(* ===================================================================== *)

Section store_records.

Import Store Frame StoreOps.

Lemma add_nft_fold_other (l : list NFT.t)
    (acc : gmap string NFT.t * gmap string Collection.t) (k : string) :
  ~ In k (map NFT.id l) -> fst (foldl add_nft acc l) !! k = fst acc !! k.
Proof.
  revert acc. induction l as [|x l IH]; intros acc Hk; simpl; [reflexivity|].
  simpl in Hk. rewrite IH by tauto.
  rewrite add_nft_fst. apply lookup_insert_ne. tauto.
Qed.


Lemma add_nft_fold_stored (l : list NFT.t)
    (acc : gmap string NFT.t * gmap string Collection.t) (nft : NFT.t) :
  NoDup (map NFT.id l) -> In nft l ->
  fst (foldl add_nft acc l) !! NFT.id nft = Some nft.
Proof.
  revert acc. induction l as [|x l IH]; intros acc Hnd Hin; simpl;
    [destruct Hin|].
  simpl in Hnd. apply NoDup_cons in Hnd as [Hx Hnd].
  destruct Hin as [->|Hin]; [|apply IH; assumption].
  rewrite add_nft_fold_other
    by (intros H; apply Hx, list_elem_of_In, H).
  rewrite add_nft_fst. apply lookup_insert_eq.
Qed.


Lemma filter_NoDup {A : Type} (f : A -> bool) (l : list A) :
  NoDup l -> NoDup (List.filter f l).
Proof.
  induction 1 as [|x l Hx Hnd IH]; simpl; [constructor|].
  destruct (f x); [|exact IH]. constructor; [|exact IH].
  intros Hin. apply Hx. apply list_elem_of_In in Hin.
  apply filter_In in Hin as [Hin _]. apply list_elem_of_In, Hin.
Qed.

Lemma values_NoDup (m : gmap string NFT.t) :
  keyed m -> NoDup (map snd (map_to_list m)).
Proof.
  intros Hkeyed. apply (NoDup_fmap_2_strong snd); [|apply NoDup_map_to_list].
  intros [k1 v1] [k2 v2] H1 H2 Hv. simpl in Hv. subst v2.
  apply elem_of_map_to_list in H1, H2.
  pose proof (Hkeyed _ _ H1) as E1. pose proof (Hkeyed _ _ H2) as E2.
  simpl in *. congruence.
Qed.

(** [removeNFTsByWallet] on a store that holds every record under its id:
    exactly the records of the other wallets stay, each under its key; the
    collection aggregates stay as they are, counts included. *)
Theorem removeNFTsByWallet_spec (s : Store.t) (walletId : string) :
  keyed (nfts s) ->
  (forall (k : string) (nft : NFT.t),
     nfts (removeNFTsByWallet walletId s) !! k = Some nft
     <-> nfts s !! k = Some nft /\ NFT.walletId nft <> walletId)
  /\ getNFTsByWallet walletId (removeNFTsByWallet walletId s) = []
  /\ keyed (nfts (removeNFTsByWallet walletId s))
  /\ collections (removeNFTsByWallet walletId s) = collections s.
Proof.
  intros Hkeyed.
  assert (Hlook : forall k nft,
             nfts (removeNFTsByWallet walletId s) !! k = Some nft
             <-> nfts s !! k = Some nft /\ NFT.walletId nft <> walletId)
    by (intros k nft; apply delete_wallet_nfts_lookup, Hkeyed).
  split; [exact Hlook | split; [|split; [|reflexivity]]].
  - unfold getNFTsByWallet. apply filter_none. intros nft Hin.
    apply values_In in Hin as [k Hk]. apply Hlook in Hk as [_ Hw].
    apply String.eqb_neq, Hw.
  - apply delete_wallet_nfts_keyed, Hkeyed.
Qed.

Lemma removeNFTsByWallet_spec_witness :
  getNFTsByWallet "w1" (removeNFTsByWallet "w1" Examples.one_nft_store) = []
  /\ collections (removeNFTsByWallet "w1" Examples.one_nft_store)
     = collections Examples.one_nft_store.
Proof.
  assert (Hkeyed : keyed (nfts Examples.one_nft_store))
    by (apply (bool_decide_unpack _); vm_compute; exact I).
  destruct (removeNFTsByWallet_spec Examples.one_nft_store "w1" Hkeyed)
    as (_ & Hnone & _ & Hcol).
  split; assumption.
Defined.

Lemma setNFTs_lookup_parts (s : Store.t) (walletId : string) (X : list NFT.t) :
  keyed (nfts s) ->
  NoDup (map NFT.id X) ->
  (forall nft : NFT.t,
     In nft X -> nfts (setNFTs walletId X s) !! NFT.id nft = Some nft)
  /\ (forall (k : string) (nft : NFT.t),
        ~ In k (map NFT.id X) ->
        (nfts (setNFTs walletId X s) !! k = Some nft
         <-> nfts s !! k = Some nft /\ NFT.walletId nft <> walletId))
  /\ keyed (nfts (setNFTs walletId X s)).
Proof.
  intros Hkeyed Hnd. split; [|split].
  - intros nft Hin. unfold setNFTs. simpl.
    apply add_nft_fold_stored; assumption.
  - intros k nft Hk. unfold setNFTs. simpl.
    rewrite add_nft_fold_other by exact Hk. simpl.
    apply delete_wallet_nfts_lookup, Hkeyed.
  - apply setNFTs_keyed, Hkeyed.
Qed.

(** [setNFTs] on a store that holds every record under its id, with a list
    whose ids are distinct: every record of the list is stored under its id;
    under any other key the store holds what it held before, unless that
    was a record of the wallet; and every record is still under its id. *)
Theorem setNFTs_lookup (s : Store.t) (walletId : string) (X : list NFT.t) :
  keyed (nfts s) ->
  NoDup (map NFT.id X) ->
  (forall nft : NFT.t,
     In nft X -> nfts (setNFTs walletId X s) !! NFT.id nft = Some nft)
  /\ (forall (k : string) (nft : NFT.t),
        ~ In k (map NFT.id X) ->
        (nfts (setNFTs walletId X s) !! k = Some nft
         <-> nfts s !! k = Some nft /\ NFT.walletId nft <> walletId))
  /\ keyed (nfts (setNFTs walletId X s)).
Proof. apply setNFTs_lookup_parts. Qed.

Lemma setNFTs_lookup_witness :
  nfts (setNFTs "w1" [Examples.second; Examples.third] Examples.one_nft_store)
    !! "c" = Some Examples.second.
Proof.
  assert (Hkeyed : keyed (nfts Examples.one_nft_store))
    by (apply (bool_decide_unpack _); vm_compute; exact I).
  assert (Hnd : NoDup (map NFT.id [Examples.second; Examples.third]))
    by (apply (bool_decide_unpack _); vm_compute; exact I).
  destruct (setNFTs_lookup Examples.one_nft_store "w1"
              [Examples.second; Examples.third] Hkeyed Hnd) as (Hin & _ & _).
  apply (Hin Examples.second). left. reflexivity.
Defined.

(** What [setNFTs] stores for a wallet is what [getNFTsByWallet] returns
    for it: for a list of records of that wallet with distinct ids, on a
    store that holds every record under its id, the records returned are
    the records of the list (in the order of the map). *)
Theorem setNFTs_getNFTsByWallet (s : Store.t) (walletId : string)
    (X : list NFT.t) :
  keyed (nfts s) ->
  NoDup (map NFT.id X) ->
  Forall (fun nft => NFT.walletId nft = walletId) X ->
  Permutation (getNFTsByWallet walletId (setNFTs walletId X s)) X.
Proof.
  intros Hkeyed Hnd Hwallet.
  destruct (setNFTs_lookup_parts s walletId X Hkeyed Hnd) as (Hin & Hout & Hk').
  rewrite Forall_forall in Hwallet.
  apply NoDup_Permutation.
  - apply filter_NoDup, values_NoDup, Hk'.
  - apply (NoDup_fmap_1 NFT.id), Hnd.
  - intros x. rewrite !list_elem_of_In. unfold getNFTsByWallet.
    rewrite filter_In, values_In, String.eqb_eq. split.
    + intros [[k Hk] Hw].
      destruct (in_dec string_dec k (map NFT.id X)) as [Hi|Ho].
      * apply in_map_iff in Hi as (nft & <- & Hnft).
        rewrite (Hin nft Hnft) in Hk. congruence.
      * apply (Hout k x Ho) in Hk as [_ Hne]. contradiction.
    + intros Hx. split; [exists (NFT.id x); apply Hin, Hx|].
      apply Hwallet, list_elem_of_In, Hx.
Qed.

Lemma setNFTs_getNFTsByWallet_witness :
  Permutation
    (getNFTsByWallet "w1"
       (setNFTs "w1" [Examples.second; Examples.third] Examples.one_nft_store))
    [Examples.second; Examples.third].
Proof.
  apply (setNFTs_getNFTsByWallet Examples.one_nft_store "w1"
           [Examples.second; Examples.third]).
  - apply (bool_decide_unpack _). vm_compute. exact I.
  - apply (bool_decide_unpack _). vm_compute. exact I.
  - repeat constructor.
Defined.





End store_records.

(* ===================================================================== *)
(** * Further properties of the store: wallets *)
(* ===================================================================== *)

Section store_wallets.

Import Store Frame StoreOps.

(** [removeWallet] on a store that holds every record under its id: no
    wallet with the id is left and the other wallets keep their order; no
    record of the wallet is left and the records of the other wallets stay;
    an active wallet that is removed hands over to the first wallet left,
    any other active wallet stays. *)
Theorem removeWallet_cascade (s : Store.t) (id : string) :
  keyed (nfts s) ->
  wallets (removeWallet id s)
  = List.filter (fun w => negb (String.eqb (Wallet.id w) id)) (wallets s)
  /\ ~ In id (map Wallet.id (wallets (removeWallet id s)))
  /\ getNFTsByWallet id (removeWallet id s) = []
  /\ (forall (k : string) (nft : NFT.t),
        nfts (removeWallet id s) !! k = Some nft
        <-> nfts s !! k = Some nft /\ NFT.walletId nft <> id)
  /\ activeWalletId (removeWallet id s)
     = (if bool_decide (activeWalletId s = Some id)
        then Wallet.id <$> head (wallets (removeWallet id s))
        else activeWalletId s).
Proof.
  intros Hkeyed.
  assert (Hlook : forall k nft,
             nfts (removeWallet id s) !! k = Some nft
             <-> nfts s !! k = Some nft /\ NFT.walletId nft <> id)
    by (intros k nft; apply delete_wallet_nfts_lookup, Hkeyed).
  split; [reflexivity | split; [|split; [|split; [exact Hlook|]]]].
  - simpl. intros Hin. apply in_map_iff in Hin as (w & Hw & Hin).
    apply filter_In in Hin as [_ Hne]. rewrite Hw, String.eqb_refl in Hne.
    discriminate.
  - unfold getNFTsByWallet. apply filter_none. intros nft Hin.
    apply values_In in Hin as [k Hk]. apply Hlook in Hk as [_ Hw].
    apply String.eqb_neq, Hw.
  - unfold removeWallet, removeNFTsByWallet, set_nfts, set_wallets.
    cbn [activeWalletId wallets].
    destruct (activeWalletId s) as [a|];
      [destruct (String.eqb_spec a id) as [->|Hne]|];
      case_bool_decide; congruence.
Qed.

Lemma removeWallet_cascade_witness :
  ~ In "wallet_1700000000000_k3j9x0q2a"
       (map Wallet.id
            (wallets (removeWallet "wallet_1700000000000_k3j9x0q2a"
                                   Samples.wallet_store)))
  /\ activeWalletId (removeWallet "wallet_1700000000000_k3j9x0q2a"
                                  Samples.wallet_store)
     = None.
Proof.
  assert (Hkeyed : keyed (nfts Samples.wallet_store))
    by (apply (bool_decide_unpack _); vm_compute; exact I).
  destruct (removeWallet_cascade Samples.wallet_store
              "wallet_1700000000000_k3j9x0q2a" Hkeyed)
    as (_ & Hgone & _ & _ & Hactive).
  split; [exact Hgone|]. rewrite Hactive. reflexivity.
Defined.

Lemma find_id (a : string) (ws : list Wallet.t) :
  In a (map Wallet.id ws) ->
  exists w : Wallet.t,
    find (fun w => String.eqb (Wallet.id w) a) ws = Some w /\ Wallet.id w = a.
Proof.
  induction ws as [|w ws IH]; simpl; [contradiction|].
  destruct (String.eqb_spec (Wallet.id w) a) as [Heq|Hne].
  - eauto.
  - intros [H|H]; [contradiction | exact (IH H)].
Qed.

(** When the active wallet id is the id of a wallet of the store, it still
    is after [addWallet] and after [removeWallet], and the selector
    [useActiveWallet] finds a wallet with that id. *)
Theorem active_wallet_valid (s : Store.t) (now : Z) (rnd : string)
    (addedAt : Z) (wallet : WalletInput.t) (id : string) :
  active_valid s ->
  active_valid (addWallet now rnd addedAt wallet s)
  /\ active_valid (removeWallet id s)
  /\ (forall a : string,
        activeWalletId s = Some a ->
        exists w : Wallet.t, useActiveWallet s = Some w /\ Wallet.id w = a).
Proof.
  unfold active_valid. intros Hvalid. split; [|split].
  - simpl. unfold JS.or. destruct (JS.truthy (activeWalletId s)).
    + destruct (activeWalletId s) as [a|]; [|exact I].
      rewrite map_app. apply in_or_app. left. exact Hvalid.
    + rewrite map_app. apply in_or_app. right. left. reflexivity.
  - simpl. destruct (activeWalletId s) as [a|]; [|exact I].
    destruct (String.eqb_spec a id) as [->|Hne].
    + destruct (List.filter _ (wallets s)) as [|w ws]; simpl; [exact I|].
      left. reflexivity.
    + apply in_map_iff in Hvalid as (w & Hw & Hin).
      apply in_map_iff. exists w. split; [exact Hw|].
      apply filter_In. split; [exact Hin|].
      apply negb_true_iff, String.eqb_neq. congruence.
  - intros a Ha. unfold useActiveWallet. rewrite Ha in *.
    apply find_id, Hvalid.
Qed.

Lemma active_wallet_valid_witness :
  exists w : Wallet.t,
    useActiveWallet Samples.wallet_store = Some w
    /\ Wallet.id w = "wallet_1700000000000_k3j9x0q2a".
Proof.
  assert (Hvalid : active_valid Samples.wallet_store) by (left; reflexivity).
  destruct (active_wallet_valid Samples.wallet_store 0 "" 0
              Examples.wallet_input "x" Hvalid) as (_ & _ & Hsel).
  apply Hsel. reflexivity.
Defined.


End store_wallets.

(* ===================================================================== *)
(** * Further properties of the store: custom groups *)
(* ===================================================================== *)

Section store_groups.

Import Store Frame StoreOps.

Variable change : Z -> CustomGroup.t -> CustomGroup.t.
Hypothesis change_id :
  forall (now : Z) (g : CustomGroup.t),
    CustomGroup.id (change now g) = CustomGroup.id g.

Lemma map_groups_other (id id' : string) (clock : nat -> Z) (pos : nat)
    (gs : list CustomGroup.t) :
  id' <> id ->
  group_of id' (map_groups id change clock pos gs) = group_of id' gs.
Proof.
  intros Hne. unfold group_of.
  revert pos. induction gs as [|g gs IH]; intros pos; simpl; [reflexivity|].
  destruct (String.eqb_spec (CustomGroup.id g) id) as [Hg|Hg].
  - rewrite change_id.
    destruct (String.eqb_spec (CustomGroup.id g) id'); [congruence | apply IH].
  - rewrite IH. reflexivity.
Qed.

Lemma map_groups_target (id : string) (clock : nat -> Z) (pos : nat)
    (gs : list CustomGroup.t) (g : CustomGroup.t) :
  group_of id gs = Some g ->
  exists now : Z,
    group_of id (map_groups id change clock pos gs) = Some (change now g).
Proof.
  unfold group_of.
  revert pos. induction gs as [|g0 gs IH]; intros pos; simpl; [discriminate|].
  destruct (String.eqb_spec (CustomGroup.id g0) id) as [Hg|Hg].
  - intros [= <-]. exists (clock pos).
    rewrite change_id, Hg, String.eqb_refl. reflexivity.
  - apply String.eqb_neq in Hg. rewrite Hg. apply IH.
Qed.

Lemma map_groups_absent (id : string) (clock : nat -> Z) (pos : nat)
    (gs : list CustomGroup.t) :
  ~ In id (map CustomGroup.id gs) -> map_groups id change clock pos gs = gs.
Proof.
  revert pos. induction gs as [|g gs IH]; intros pos Hout; simpl in *;
    [reflexivity|].
  destruct (String.eqb_spec (CustomGroup.id g) id); [tauto|].
  rewrite IH by tauto. reflexivity.
Qed.

End store_groups.

Section store_group_members.

Import Store Frame StoreOps.

Lemma unique_spec (l : list string) :
  NoDup (unique l) /\ forall x : string, In x (unique l) <-> In x l.
Proof.
  unfold unique. split; [apply unique_NoDup; constructor|].
  intros x. rewrite unique_In. simpl. tauto.
Qed.

Lemma add_all_fresh (l : list string) (s : JSSet.t) :
  NoDup (s ++ l) -> foldl (fun s x => JSSet.add x s) s l = s ++ l.
Proof.
  revert s. induction l as [|x l IH]; intros s Hnd; simpl.
  - rewrite app_nil_r. reflexivity.
  - assert (Hx : JSSet.has x s = false).
    { destruct (JSSet.has x s) eqn:H; [|reflexivity].
      apply JSSet_has_iff, list_elem_of_In in H.
      apply NoDup_app in Hnd as (_ & Hdis & _).
      exfalso. apply (Hdis x H). left. }
    unfold JSSet.add at 2. rewrite Hx.
    rewrite IH by (rewrite <- app_assoc; exact Hnd).
    rewrite <- app_assoc. reflexivity.
Qed.

Lemma add_all_known (l : list string) (s : JSSet.t) :
  (forall x, In x l -> In x s) -> foldl (fun s x => JSSet.add x s) s l = s.
Proof.
  induction l as [|x l IH]; intros H; simpl; [reflexivity|].
  assert (Hx : JSSet.has x s = true) by (apply JSSet_has_iff, H; left; reflexivity).
  unfold JSSet.add at 2. rewrite Hx. apply IH. intros y Hy. apply H. right. exact Hy.
Qed.

Lemma add_all_extends (l : list string) (s : JSSet.t) :
  exists r : list string,
    foldl (fun s x => JSSet.add x s) s l = s ++ r
    /\ forall x, In x r -> In x l.
Proof.
  revert s. induction l as [|x l IH]; intros s; simpl.
  - exists []. rewrite app_nil_r. split; [reflexivity | contradiction].
  - destruct (IH (JSSet.add x s)) as (r & -> & Hr). unfold JSSet.add.
    destruct (JSSet.has x s).
    + exists r. split; [reflexivity | auto].
    + exists (x :: r). rewrite <- app_assoc. split; [reflexivity|].
      intros y [<-|Hy]; auto.
Qed.

Lemma unique_app (l ids : list string) :
  unique (l ++ ids) = foldl (fun s x => JSSet.add x s) (unique l) ids.
Proof. unfold unique. apply foldl_app. Qed.

Lemma with_nftIds_id (ids : CustomGroup.t -> list string) (now : Z)
    (g : CustomGroup.t) :
  CustomGroup.id (with_nftIds (ids g) now g) = CustomGroup.id g.
Proof. reflexivity. Qed.

(** [addToGroup] is a union: the group gets the ids that it had and the
    ids that are added, each once, the ones it had first and in their
    order; its name stays; adding the same ids again changes no membership;
    the groups with other ids stay as they are, and with an id that no
    group has the state stays as it is. *)
Theorem addToGroup_union (clock clock' : nat -> Z) (s : Store.t)
    (groupId : string) (nftIds : list string) (g : CustomGroup.t) :
  group_of groupId (customGroups s) = Some g ->
  (exists g' : CustomGroup.t,
     group_of groupId (customGroups (addToGroup clock groupId nftIds s))
     = Some g'
     /\ NoDup (CustomGroup.nftIds g')
     /\ (forall x : string,
           In x (CustomGroup.nftIds g')
           <-> In x (CustomGroup.nftIds g) \/ In x nftIds)
     /\ (NoDup (CustomGroup.nftIds g) ->
         exists added, CustomGroup.nftIds g' = CustomGroup.nftIds g ++ added)
     /\ CustomGroup.name g' = CustomGroup.name g
     /\ CustomGroup.nftIds
          <$> group_of groupId
                (customGroups
                   (addToGroup clock' groupId nftIds
                      (addToGroup clock groupId nftIds s)))
        = Some (CustomGroup.nftIds g'))
  /\ (forall other : string,
        other <> groupId ->
        group_of other (customGroups (addToGroup clock groupId nftIds s))
        = group_of other (customGroups s)).
Proof.
  intros Hg. split.
  - destruct (map_groups_target
                (fun now g => with_nftIds (unique (CustomGroup.nftIds g ++ nftIds))
                                          now g)
                (with_nftIds_id _) groupId clock 0 _ g Hg) as [now Hnow].
    destruct (unique_spec (CustomGroup.nftIds g ++ nftIds)) as [Hnd Hin].
    eexists. split; [exact Hnow|]. cbn [with_nftIds CustomGroup.nftIds
                                          CustomGroup.name].
    split; [exact Hnd|]. split; [|split; [|split; [reflexivity|]]].
    + intros x. rewrite Hin, in_app_iff. reflexivity.
    + intros Hg_nd. rewrite unique_app.
      replace (unique (CustomGroup.nftIds g)) with (CustomGroup.nftIds g)
        by (symmetry; apply (add_all_fresh _ []); exact Hg_nd).
      destruct (add_all_extends nftIds (CustomGroup.nftIds g)) as (r & Hr & _).
      exists r. exact Hr.
    + destruct (map_groups_target
                  (fun now g =>
                     with_nftIds (unique (CustomGroup.nftIds g ++ nftIds)) now g)
                  (with_nftIds_id _) groupId clock' 0 _ _ Hnow) as [now' Hnow'].
      unfold addToGroup at 1. cbn [customGroups set_customGroups].
      unfold addToGroup at 1. cbn [customGroups set_customGroups].
      rewrite Hnow'. cbn [fmap option_fmap option_map with_nftIds
                               CustomGroup.nftIds].
      f_equal. rewrite unique_app.
      replace (unique (unique (CustomGroup.nftIds g ++ nftIds)))
        with (unique (CustomGroup.nftIds g ++ nftIds))
        by (symmetry; apply (add_all_fresh _ []); exact Hnd).
      apply add_all_known. intros x Hx. apply Hin, in_or_app. right. exact Hx.
  - intros other Hne. apply map_groups_other; [apply with_nftIds_id | exact Hne].
Qed.

Lemma addToGroup_union_witness :
  exists g' : CustomGroup.t,
    group_of "group_1_a"
      (customGroups (addToGroup Samples.ticking "group_1_a" ["c"; "d"]
                                Samples.group_store))
    = Some g'
    /\ NoDup (CustomGroup.nftIds g')
    /\ CustomGroup.name g' = CustomGroup.name Samples.favorites.
Proof.
  destruct (addToGroup_union Samples.ticking Samples.ticking Samples.group_store
              "group_1_a" ["c"; "d"] Samples.favorites)
    as [(g' & Hg & Hnd & _ & _ & Hname & _) _]; [reflexivity|].
  exists g'. split; [exact Hg | split; [exact Hnd | exact Hname]].
Defined.



End store_group_members.

Section store_group_lifecycle.

Import Store Frame StoreOps.

Lemma filter_all {A : Type} (f : A -> bool) (l : list A) :
  (forall x, In x l -> f x = true) -> List.filter f l = l.
Proof.
  induction l as [|x l IH]; intros H; simpl; [reflexivity|].
  rewrite (H x) by (left; reflexivity).
  rewrite IH; [reflexivity|]. intros y Hy. apply H. right. exact Hy.
Qed.

Lemma find_app_fresh (id : string) (gs : list CustomGroup.t)
    (g : CustomGroup.t) :
  ~ In id (map CustomGroup.id gs) ->
  String.eqb (CustomGroup.id g) id = true ->
  find (fun g => String.eqb (CustomGroup.id g) id) (gs ++ [g]) = Some g.
Proof.
  intros Hfresh Hg. induction gs as [|g0 gs IH]; simpl in *.
  - rewrite Hg. reflexivity.
  - destruct (String.eqb_spec (CustomGroup.id g0) id); [tauto|].
    apply IH. tauto.
Qed.

(** [createGroup] returns the id of the group that it appends; the group
    is empty and has a color; when no group had that id, the group is found
    under the id and [deleteGroup] with the id gives the groups back as they
    were. [deleteGroup] with an id that no group has leaves the state as it
    is. *)
Theorem createGroup_deleteGroup (now : Z) (rnd : string) (r : nat)
    (createdAt updatedAt : Z) (name : string) (description color : option string)
    (s : Store.t) :
  let id := fst (createGroup now rnd r createdAt updatedAt name description
                             color s) in
  let s' := snd (createGroup now rnd r createdAt updatedAt name description
                             color s) in
  (forall other : string,
     ~ In other (map CustomGroup.id (customGroups s)) -> deleteGroup other s = s)
  /\ ((r < 10)%nat ->
      ~ In id (map CustomGroup.id (customGroups s)) ->
      (exists g : CustomGroup.t,
         group_of id (customGroups s') = Some g
         /\ CustomGroup.nftIds g = []
         /\ CustomGroup.name g = name
         /\ CustomGroup.color g <> "")
      /\ customGroups (deleteGroup id s') = customGroups s).
Proof.
  intros id s'.
  assert (Hkeep : forall other gs,
             ~ In other (map CustomGroup.id gs) ->
             List.filter (fun g => negb (String.eqb (CustomGroup.id g) other)) gs
             = gs).
  { intros other gs Hout. apply filter_all. intros g Hg.
    apply negb_true_iff, String.eqb_neq. intros Heq. apply Hout.
    apply in_map_iff. exists g. auto. }
  split.
  - intros other Hout. unfold deleteGroup. rewrite (Hkeep _ _ Hout).
    destruct s; reflexivity.
  - intros Hr Hfresh. split.
    + eexists. split.
      { unfold s', createGroup, group_of.
        cbn [snd customGroups set_customGroups].
        rewrite find_app_fresh; [reflexivity | exact Hfresh | apply String.eqb_refl]. }
      split; [reflexivity|]. split; [reflexivity|].
      cbn [CustomGroup.color]. unfold JS.or.
      destruct (JS.truthy color) eqn:Hc.
      * destruct color as [c|]; [|discriminate]. simpl in *.
        destruct (String.eqb_spec c ""); [discriminate | assumption].
      * simpl. clear - Hr. unfold getRandomColor.
        do 10 (destruct r as [|r]; [discriminate|]). lia.
    + unfold s', createGroup, deleteGroup.
      cbn [snd customGroups set_customGroups].
      rewrite List.filter_app. simpl. rewrite String.eqb_refl. simpl.
      rewrite app_nil_r. apply Hkeep, Hfresh.
Qed.

Lemma createGroup_deleteGroup_witness :
  customGroups
    (deleteGroup
       (fst (createGroup 1700000000000 "q1w2e3r4t" 3 1700000000000
                         1700000000001 "Art" None None Samples.group_store))
       (snd (createGroup 1700000000000 "q1w2e3r4t" 3 1700000000000
                         1700000000001 "Art" None None Samples.group_store)))
  = customGroups Samples.group_store.
Proof.
  destruct (createGroup_deleteGroup 1700000000000 "q1w2e3r4t" 3 1700000000000
              1700000000001 "Art" None None Samples.group_store) as [_ H].
  apply H.
  - lia.
  - intros [H'|[]]. discriminate H'.
Defined.

End store_group_lifecycle.

(* ===================================================================== *)
(** * The fetchers *)
(* ===================================================================== *)

Section helius_facts.

Import Http HeliusFetcher.











End helius_facts.

Section alchemy_facts.

Import Http AlchemyFetcher.

Lemma fromAlchemy_on_chain (now : Z) (dateGetTime : string -> Z)
    (a : AlchemyNFT.t) (walletId : string) (chain : EVMChain) :
  NFTNormalizer.fromAlchemy now dateGetTime a walletId chain
  = on_evm_chain chain
      (NFTNormalizer.fromAlchemy now dateGetTime a walletId ethereum).
Proof. reflexivity. Qed.

Lemma map_clock_map {A B C : Type} (f : Z -> A -> B) (g : B -> C)
    (clock : nat -> Z) (pos : nat) (l : list A) :
  map_clock (fun now a => g (f now a)) clock pos l
  = map g (map_clock f clock pos l).
Proof.
  revert pos. induction l as [|a l IH]; intros pos; simpl;
    [reflexivity | rewrite IH; reflexivity].
Qed.

Lemma map_clock_same {A B : Type} (f f' : Z -> A -> B) (clock : nat -> Z)
    (pos : nat) (l : list A) :
  (forall now a, f now a = f' now a) ->
  map_clock f clock pos l = map_clock f' clock pos l.
Proof.
  intros H. revert pos. induction l as [|a l IH]; intros pos; simpl;
    [reflexivity | rewrite H, IH; reflexivity].
Qed.

Lemma fetch_loop_on_chain (server : request -> fetched AlchemyResponse.t)
    (clock : nat -> Z) (dateGetTime : string -> Z)
    (baseUrl apiKey address : string) (chain : EVMChain) (walletId : string)
    (fuel : nat) :
  forall (pageKey : option string) (allNFTs : list NFT.t),
    fetch_loop server clock dateGetTime baseUrl apiKey address chain walletId
               fuel pageKey (map (on_evm_chain chain) allNFTs)
    = outcome_map (map (on_evm_chain chain))
        (fetch_loop server clock dateGetTime baseUrl apiKey address ethereum
                    walletId fuel pageKey allNFTs).
Proof.
  induction fuel as [|fuel IH]; intros pageKey allNFTs; [reflexivity|].
  cbn [fetch_loop]. unfold fetchPage.
  change (page_request baseUrl apiKey address chain pageKey)
    with (page_request baseUrl apiKey address ethereum pageKey).
  destruct (server (page_request baseUrl apiKey address ethereum pageKey))
    as [message|r]; [reflexivity|].
  destruct (negb (ok r)); [reflexivity|].
  destruct (json r) as [message|data]; [reflexivity|].
  cbn [PaginatedResult.items PaginatedResult.pageKey PaginatedResult.hasMore].
  rewrite length_map.
  rewrite (map_clock_same _
             (fun now a =>
                on_evm_chain chain
                  (NFTNormalizer.fromAlchemy now dateGetTime a walletId ethereum)))
    by (intros; apply fromAlchemy_on_chain).
  rewrite (map_clock_map
             (fun now a =>
                NFTNormalizer.fromAlchemy now dateGetTime a walletId ethereum)).
  rewrite <- map_app.
  destruct (JS.truthy (AlchemyResponse.pageKey data)
            && JS.truthy (AlchemyResponse.pageKey data));
    [apply IH | reflexivity].
Qed.

(** The chain does not enter the request of the Alchemy fetcher: the
    network name that [mapChainToNetwork] computes is not used, so the same
    requests are sent for every chain. What [fetchForWallet] returns for a
    chain is what it returns for [ethereum], with the id and the sub-chain
    of every record rewritten for that chain; an error is the same error. *)
Theorem alchemy_fetch_any_chain (server : request -> fetched AlchemyResponse.t)
    (clock : nat -> Z) (dateGetTime : string -> Z)
    (baseUrl apiKey address : string) (chain : EVMChain) (walletId : string)
    (fuel : nat) (pageKey : option string) :
  page_request baseUrl apiKey address chain pageKey
  = page_request baseUrl apiKey address ethereum pageKey
  /\ fetchForWallet server clock dateGetTime baseUrl apiKey address chain
                    walletId fuel
     = outcome_map (map (on_evm_chain chain))
         (fetchForWallet server clock dateGetTime baseUrl apiKey address
                         ethereum walletId fuel).
Proof.
  split; [reflexivity|]. unfold fetchForWallet.
  apply (fetch_loop_on_chain server clock dateGetTime baseUrl apiKey address
           chain walletId fuel None []).
Qed.

(** The two-page provider of the samples: the second request carries the
    page key of the first answer, and the records of both pages come back
    in order. *)
Lemma alchemy_two_pages :
  exists first second : NFT.t,
    fetchForWallet Samples.alchemy_server Samples.ticking (fun _ => 0)
      "https://api.g.alchemy.com/nft/v3" "key" "0xaa" base "w1" 5
    = Done [first; second]
    /\ NFT.lastFetched first = 1700000000000
    /\ NFT.lastFetched second = 1700000000001.
Proof. eexists. eexists. split; [reflexivity | split; reflexivity]. Qed.

End alchemy_facts.

(* ===================================================================== *)
(** * Summaries *)
(* ===================================================================== *)

Section summaries.

Import NFTNormalizer Grid Shape.

(** [parseId] reads the id of a normalized record: for an Alchemy record
    the chain, the sub-chain, the contract address and the token id of the
    record, for a Helius record a Solana id whose contract address and token
    id are both the token id of the record; each when the parts of the
    provider record hold no [':']. *)
Theorem normalized_id_parses (now : Z) (dateGetTime : string -> Z)
    (a : AlchemyNFT.t) (h : HeliusAsset.t) (walletId : string)
    (chain : EVMChain) :
  (JS.has_char ":" (AlchemyNFT.address (AlchemyNFT.contract a)) = false ->
   JS.has_char ":" (AlchemyNFT.tokenId a) = false ->
   NFT.id (fromAlchemy now dateGetTime a walletId chain)
   = generateId evm (AlchemyNFT.address (AlchemyNFT.contract a))
                (AlchemyNFT.tokenId a) (Some chain)
   /\ parseId (NFT.id (fromAlchemy now dateGetTime a walletId chain))
      = Some {| chain := evm;
                evmChain := Some (EVMChain_str chain);
                contractAddress :=
                  NFT.contractAddress
                    (fromAlchemy now dateGetTime a walletId chain);
                tokenId :=
                  NFT.tokenId (fromAlchemy now dateGetTime a walletId chain) |})
  /\ (JS.has_char ":" (HeliusAsset.id h) = false ->
      parseId (NFT.id (fromHelius now h walletId))
      = Some {| chain := solana;
                evmChain := None;
                contractAddress := NFT.tokenId (fromHelius now h walletId);
                tokenId := NFT.tokenId (fromHelius now h walletId) |}).
Proof.
  split.
  - intros Ha Ht. apply (fromAlchemy_id_parses now dateGetTime a walletId chain Ha Ht).
  - intros Hh. apply (fromHelius_id_parses_token now h walletId Hh).
Qed.

Lemma normalized_id_parses_witness :
  parseId (NFT.id (fromHelius 0 Samples.asset "w1"))
  = Some {| chain := solana;
            evmChain := None;
            contractAddress := NFT.tokenId (fromHelius 0 Samples.asset "w1");
            tokenId := NFT.tokenId (fromHelius 0 Samples.asset "w1") |}.
Proof.
  destruct (normalized_id_parses 0 (fun _ => 0) Examples.scenario_record
              Samples.asset "w1" base) as [_ H].
  apply H. reflexivity.
Defined.

(** The flat modes show cards only, no header: the ['value'] mode from the
    highest floor price to the lowest, a record without a floor price
    counting as 0; the ['recent'] mode from the latest fetch to the earliest;
    the ['custom'] mode falls to the default branch and is the ['recent']
    mode. *)
Theorem arrange_flat_sorted (localeCompare : string -> string -> Z)
    (nfts : list NFT.t) :
  (groupAndSortNFTs localeCompare nfts value
   = map Card (cards (groupAndSortNFTs localeCompare nfts value))
   /\ StronglySorted (fun a b => (price b <= price a)%Q)
        (cards (groupAndSortNFTs localeCompare nfts value)))
  /\ (groupAndSortNFTs localeCompare nfts recent
      = map Card (cards (groupAndSortNFTs localeCompare nfts recent))
      /\ StronglySorted (fun a b => NFT.lastFetched b <= NFT.lastFetched a)
           (cards (groupAndSortNFTs localeCompare nfts recent)))
  /\ groupAndSortNFTs localeCompare nfts custom
     = groupAndSortNFTs localeCompare nfts recent.
Proof.
  split; [apply arrange_value_sorted|].
  destruct (arrange_recent_sorted localeCompare nfts) as (Hc & Hr & Hs).
  split; [split; assumption | exact Hc].
Qed.

End summaries.
